(** * LazyVector: a growable array with lazily evaluated element-wise operators

    A shallow embedding of [src/LazyVector.h] (namespace [Lazy]): the class
    template [Vector<T>] with its manually managed storage, the expression
    template [BinaryExpression<LeftExpr, BinaryOp, RightExpr>] and the
    operation tags of [BinaryOperations].

    Modelling decisions.
    - [std::size_t] is [N] with the 64-bit wrap-around written out ([wrap],
      [size_sub]).
    - The free store is a list of blocks, one per [new T[n]]; [delete[]] marks
      a block [Freed].  A pointer is null, indeterminate ([Wild]) or a block
      with an element offset.  Every access outside a live block is undefined
      behaviour and ends the run with [UB]; [throw] ends it with [Throw].
      Allocation itself is assumed to succeed.
    - [T] is an arithmetic type, or a class type that wraps one: a slot of a
      fresh array holds an indeterminate value ([Indet]) until it is written,
      destructors do nothing, and [a op= b] stores [a op b].  An operator
      applied to an indeterminate operand yields an indeterminate value.
      Whether [std::is_arithmetic] holds for [T] is [is_arithmetic]; it decides
      which statements of [erase(first, last)] are compiled.
    - A parameter of reference type ([const T&], [T&&]) is an [argument]: the
      object it is bound to, a temporary or an element of an array, is read
      where the method reads it, from the free store as it is then.
    - A method takes the free store and the fields of [*this] and returns the
      new free store and fields.  An operand held by reference in an expression
      is the operand's fields; its elements are read from the free store at
      evaluation time.
    - Evaluation carries a ghost counter: the number of [BinaryOp::apply]
      calls performed. *)

From stdpp Require Import base numbers list.
From Stdlib Require Import ZArith NArith Lia.

(** ** Outcomes *)

Inductive fault := OutOfBounds | UseAfterFree | InvalidPointer | DoubleFree | Overlap.

Inductive exception := out_of_range.

Inductive result (A : Type) : Type :=
  | Ok (a : A)
  | Throw (e : exception)
  | UB (f : fault).

Arguments Ok {A} a.
Arguments Throw {A} e.
Arguments UB {A} f.

#[global] Instance result_ret : MRet result := λ A a, Ok a.

#[global] Instance result_bind : MBind result := λ A B f m,
  match m with
  | Ok a => f a
  | Throw e => Throw e
  | UB u => UB u
  end.

(** ** std::size_t *)

Definition size_t := N.

Definition wrap (n : N) : size_t := (n mod 2 ^ 64)%N.

(** [a - b] on [std::size_t]. *)
Definition size_sub (a b : size_t) : size_t := wrap (a + (2 ^ 64 - wrap b))%N.

(** ** Operators and operation tags *)

(** The binary operator tokens that the header overloads. *)
Inductive binary_operator :=
  | o_plus | o_minus | o_star | o_slash | o_pipe | o_amp | o_caret | o_shl | o_shr
  | o_ampamp | o_pipepipe | o_eqeq | o_noteq | o_lt | o_le | o_gt | o_ge.

(** The compound assignment tokens. *)
Inductive assign_operator :=
  | o_plus_eq | o_minus_eq | o_star_eq | o_slash_eq | o_pipe_eq | o_amp_eq
  | o_caret_eq | o_shl_eq | o_shr_eq.

(** [namespace BinaryOperations]: one struct per tag. *)
Inductive tag :=
  | ADD | SUB | MUL | DIV | LOR | LAND | LXOR | SHL | SHR
  | AND | OR | EQ | NEQ | LT | LE | GT | GE.

#[global] Instance binary_operator_eq_dec : EqDecision binary_operator.
Proof. solve_decision. Defined.

#[global] Instance tag_eq_dec : EqDecision tag.
Proof. solve_decision. Defined.

(** [a op= b] stores [a op b]. *)
Definition assign_base (o : assign_operator) : binary_operator :=
  match o with
  | o_plus_eq => o_plus | o_minus_eq => o_minus | o_star_eq => o_star
  | o_slash_eq => o_slash | o_pipe_eq => o_pipe | o_amp_eq => o_amp
  | o_caret_eq => o_caret | o_shl_eq => o_shl | o_shr_eq => o_shr
  end.

(** The first [CREATE_BINARY_OPERATION] macro (lines 112-128): a tag made
    from an operator and its compound form. *)
Definition numeric_tag (t : tag) : option (binary_operator * assign_operator) :=
  match t with
  | ADD => Some (o_plus, o_plus_eq)
  | SUB => Some (o_minus, o_minus_eq)
  | MUL => Some (o_star, o_star_eq)
  | DIV => Some (o_slash, o_slash_eq)
  | LOR => Some (o_pipe, o_pipe_eq)
  | LAND => Some (o_amp, o_amp_eq)
  | LXOR => Some (o_caret, o_caret_eq)
  | SHL => Some (o_shl, o_shl_eq)
  | SHR => Some (o_shr, o_shr_eq)
  | _ => None
  end.

(** The second [CREATE_BINARY_OPERATION] macro (lines 132-147): a
    relational or logical tag made from one operator. *)
Definition relational_tag (t : tag) : option binary_operator :=
  match t with
  | AND => Some o_ampamp
  | OR => Some o_pipepipe
  | EQ => Some o_eqeq
  | NEQ => Some o_noteq
  | LT => Some o_lt
  | LE => Some o_le
  | GT => Some o_gt
  | GE => Some o_ge
  | _ => None
  end.

(** The operator a tag is made from. *)
Definition tag_operator (t : tag) : binary_operator :=
  match numeric_tag t, relational_tag t with
  | Some (o, _), _ => o
  | None, Some o => o
  | None, None => o_plus
  end.

(** The element type: what the header asks of [T]. *)
Class Arithmetic (T : Type) := {
  value_init : T;                               (* T{} *)
  binop : binary_operator → T → T → T           (* a op b, converted to T *)
}.

(** [a op= b; a] *)
Definition compound `{Arithmetic T} (o : assign_operator) (a b : T) : T :=
  binop (assign_base o) a b.

(** The value category of an operand handed to [apply]. *)
Inductive category := lvalue | prvalue.

(** [BinaryOp::apply]: the four overloads of a tag, chosen by the value
    categories of the two arguments. *)
Definition BinaryOp_apply `{Arithmetic T} (t : tag) (ca : category) (a : T)
    (cb : category) (b : T) : T :=
  match numeric_tag t with
  | Some (o, oa) =>
      match ca, cb with
      | lvalue, lvalue => binop o a b           (* (const T&, const T&): a op b *)
      | prvalue, lvalue => compound oa a b      (* (T&&, const T&): a op= b; a *)
      | lvalue, prvalue => compound oa b a      (* (const T&, T&&): b op= a; b *)
      | prvalue, prvalue => compound oa a b     (* (T&&, T&&): a op= b; a *)
      end
  | None => binop (tag_operator t) a b          (* every overload: a op b *)
  end.

(** ** int, as a concrete element type

    32-bit two's complement.  Signed overflow, division by zero and shift
    counts outside 0..31 are undefined in C++; the functions below are total
    there and wrap, as the usual targets do. *)

Definition wrap32 (z : Z) : Z := ((z + 2 ^ 31) mod 2 ^ 32 - 2 ^ 31)%Z.

Definition int_of_bool (b : bool) : Z := if b then 1%Z else 0%Z.

Definition int_binop (o : binary_operator) (a b : Z) : Z :=
  match o with
  | o_plus => wrap32 (a + b)
  | o_minus => wrap32 (a - b)
  | o_star => wrap32 (a * b)
  | o_slash => wrap32 (Z.quot a b)
  | o_pipe => Z.lor a b
  | o_amp => Z.land a b
  | o_caret => Z.lxor a b
  | o_shl => wrap32 (Z.shiftl a b)
  | o_shr => Z.shiftr a b
  | o_ampamp => int_of_bool (negb (a =? 0)%Z && negb (b =? 0)%Z)
  | o_pipepipe => int_of_bool (negb (a =? 0)%Z || negb (b =? 0)%Z)
  | o_eqeq => int_of_bool (a =? b)%Z
  | o_noteq => int_of_bool (negb (a =? b)%Z)
  | o_lt => int_of_bool (a <? b)%Z
  | o_le => int_of_bool (a <=? b)%Z
  | o_gt => int_of_bool (b <? a)%Z
  | o_ge => int_of_bool (b <=? a)%Z
  end.

#[global] Instance int_Arithmetic : Arithmetic Z := {|
  value_init := 0%Z;
  binop := int_binop
|}.

(** ** The free store *)

Inductive ptr := Null | Wild | At (b : nat) (off : N).

Inductive slot (T : Type) := Indet | Val (v : T).

Arguments Indet {T}.
Arguments Val {T} v.

Inductive cell (T : Type) := Freed | Live (buf : list (slot T)).

Arguments Freed {T}.
Arguments Live {T} buf.

(** What a parameter of type [const T&] or [T&&] is bound to: an object
    outside the free store (a temporary, a literal, a local variable), or an
    element of an array of the free store, as in [v.push_back(v[0])]. *)
Inductive argument (T : Type) := Temp (x : T) | Elem (p : ptr).

Arguments Temp {T} x.
Arguments Elem {T} p.

(** [T *m_data] with the two sizes (lines 164-166). *)
Record Vector := mkVector {
  m_reservedSize : size_t;
  m_size : size_t;
  m_data : ptr
}.

(** An operand of an expression: a container held by reference, or a nested
    [BinaryExpression<LeftExpr, BinaryOp, RightExpr>]. *)
Inductive expr :=
  | Leaf (v : Vector)
  | Node (l : expr) (t : tag) (r : expr).

(** [le()[index]] is an lvalue for a container and a prvalue for a node. *)
Definition category_of (e : expr) : category :=
  match e with
  | Leaf _ => lvalue
  | Node _ _ _ => prvalue
  end.

(** The number of [BinaryExpression] nodes of an expression. *)
Fixpoint nodes (e : expr) : nat :=
  match e with
  | Leaf _ => 0
  | Node l _ r => S (nodes l + nodes r)
  end.

(** The containers an expression refers to. *)
Fixpoint operands (e : expr) : list Vector :=
  match e with
  | Leaf v => [v]
  | Node l _ r => operands l ++ operands r
  end.

(** [for (std::size_t i = first; i < bound; ++i) body] run for its [k]
    iterations; [i] stays below [bound], so [++i] does not wrap. *)
Fixpoint for_loop {S : Type} (k : nat) (i : N) (body : N → S → result S) (s : S)
    : result S :=
  match k with
  | O => Ok s
  | S k' => s' ← body i s; for_loop k' (N.succ i) body s'
  end.

(** The free store: block [b] is the [b]-th array allocated. *)
Abbreviation heap T := (list (cell T)) (only parsing).

Section Store.
Context {T : Type} `{Arithmetic T}.

(** [new T[n]]: a fresh block of [n] indeterminate slots. *)
Definition new_array (h : heap T) (n : size_t) : heap T * ptr :=
  (h ++ [Live (replicate (N.to_nat n) Indet)], At (length h) 0%N).

(** [delete[] p] *)
Definition delete_array (h : heap T) (p : ptr) : result (heap T) :=
  match p with
  | Null => Ok h
  | Wild => UB InvalidPointer
  | At b off =>
      match h !! b with
      | Some (Live _) => if (off =? 0)%N then Ok (<[b := Freed]> h) else UB InvalidPointer
      | Some Freed => UB DoubleFree
      | None => UB InvalidPointer
      end
  end.

(** [p[i]] read *)
Definition load (h : heap T) (p : ptr) (i : N) : result (slot T) :=
  match p with
  | At b off =>
      match h !! b with
      | Some (Live buf) =>
          match buf !! N.to_nat (off + i)%N with
          | Some s => Ok s
          | None => UB OutOfBounds
          end
      | Some Freed => UB UseAfterFree
      | None => UB InvalidPointer
      end
  | _ => UB InvalidPointer
  end.

(** The object a reference parameter is bound to, as it is when it is read. *)
Definition read_argument (h : heap T) (a : argument T) : result (slot T) :=
  match a with
  | Temp x => Ok (Val x)
  | Elem p => load h p 0%N
  end.

(** [p[i] = s] *)
Definition store (h : heap T) (p : ptr) (i : N) (s : slot T) : result (heap T) :=
  match p with
  | At b off =>
      match h !! b with
      | Some (Live buf) =>
          if (off + i <? N.of_nat (length buf))%N
          then Ok (<[b := Live (<[N.to_nat (off + i)%N := s]> buf)]> h)
          else UB OutOfBounds
      | Some Freed => UB UseAfterFree
      | None => UB InvalidPointer
      end
  | _ => UB InvalidPointer
  end.

(** The [n] elements from [p] on. *)
Definition read_range (h : heap T) (p : ptr) (n : N) : result (list (slot T)) :=
  match p with
  | At b off =>
      match h !! b with
      | Some (Live buf) =>
          if (off + n <=? N.of_nat (length buf))%N
          then Ok (take (N.to_nat n) (drop (N.to_nat off) buf))
          else UB OutOfBounds
      | Some Freed => UB UseAfterFree
      | None => UB InvalidPointer
      end
  | _ => UB InvalidPointer
  end.

(** Overwrite the elements from [p] on with [data]. *)
Definition write_range (h : heap T) (p : ptr) (data : list (slot T)) : result (heap T) :=
  match p with
  | At b off =>
      match h !! b with
      | Some (Live buf) =>
          if (off + N.of_nat (length data) <=? N.of_nat (length buf))%N
          then Ok (<[b := Live (take (N.to_nat off) buf ++ data
                                ++ drop (N.to_nat off + length data) buf)]> h)
          else UB OutOfBounds
      | Some Freed => UB UseAfterFree
      | None => UB InvalidPointer
      end
  | _ => UB InvalidPointer
  end.

(** [memmove(dst, src, n * sizeof(T))] *)
Definition memmove (h : heap T) (dst src : ptr) (n : N) : result (heap T) :=
  data ← read_range h src n; write_range h dst data.

Definition same_block (p q : ptr) : bool :=
  match p, q with
  | At b _, At b' _ => bool_decide (b = b')
  | _, _ => false
  end.

(** [memcpy(dst, src, n * sizeof(T))]: the two ranges must not overlap. *)
Definition memcpy (h : heap T) (dst src : ptr) (n : N) : result (heap T) :=
  if same_block dst src then UB Overlap else memmove h dst src n.

(** [&p[i]] *)
Definition ptr_add (p : ptr) (i : N) : ptr :=
  match p with
  | At b off => At b (off + i)%N
  | _ => p
  end.

(** ** Expressions *)

Definition slot_apply (t : tag) (ca : category) (a : slot T) (cb : category) (b : slot T)
    : slot T :=
  match a, b with
  | Val x, Val y => Val (BinaryOp_apply t ca x cb y)
  | _, _ => Indet
  end.

Definition slot_compound (o : assign_operator) (a b : slot T) : slot T :=
  match a, b with
  | Val x, Val y => Val (compound o x y)
  | _, _ => Indet
  end.

(** [operator[](index)] of an operand (lines 101-103 for a node, 493-494 for a
    container): the element and the number of [apply] calls made. *)
Fixpoint index (h : heap T) (e : expr) (i : N) : result (slot T * nat) :=
  match e with
  | Leaf v => s ← load h (m_data v) i; Ok (s, O)
  | Node l t r =>
      '(a, n) ← index h l i;
      '(b, m) ← index h r i;
      Ok (slot_apply t (category_of l) a (category_of r) b, S (n + m))
  end.

(** ** Vector: storage *)

(** [reallocate()] (lines 172-177); [m_reservedSize] is set by the caller. *)
Definition reallocate (h : heap T) (v : Vector) : result (heap T * Vector) :=
  let '(h1, temp) := new_array h (m_reservedSize v) in
  h2 ← memcpy h1 temp (m_data v) (m_size v);
  h3 ← delete_array h2 (m_data v);
  Ok (h3, mkVector (m_reservedSize v) (m_size v) temp).

(** [Vector()] (lines 191-193) *)
Definition Vector_default (h : heap T) : result (heap T * Vector) :=
  let '(h1, p) := new_array h 4%N in
  Ok (h1, mkVector 4%N 0%N p).

(** [m_data[i] = value] for [i = 0 .. n-1] *)
Definition fill (h : heap T) (p : ptr) (n : N) (value : T) : result (heap T) :=
  for_loop (N.to_nat n) 0%N (λ i h, store h p i (Val value)) h.

(** [Vector(xi_size)] (lines 196-206) *)
Definition Vector_size (h : heap T) (xi_size : size_t) : result (heap T * Vector) :=
  let '(h1, p) := new_array h (wrap (2 * xi_size)%N) in
  h2 ← fill h1 p xi_size value_init;
  Ok (h2, mkVector (wrap (2 * xi_size)%N) xi_size p).

(** [Vector(xi_size, xi_value)] (lines 209-219) *)
Definition Vector_fill (h : heap T) (xi_size : size_t) (xi_value : T)
    : result (heap T * Vector) :=
  let '(h1, p) := new_array h (wrap (2 * xi_size)%N) in
  h2 ← fill h1 p xi_size xi_value;
  Ok (h2, mkVector (wrap (2 * xi_size)%N) xi_size p).

(** [for (auto &item : xi_list) m_data[m_size++] = item;] *)
Fixpoint store_items (h : heap T) (p : ptr) (size : size_t) (xi_list : list T)
    : result (heap T * size_t) :=
  match xi_list with
  | [] => Ok (h, size)
  | item :: rest => h' ← store h p size (Val item); store_items h' p (wrap (size + 1)%N) rest
  end.

(** [Vector(std::initializer_list<T>)] (lines 237-247): [m_size] starts at
    [xi_list.size()] and is the index written. *)
Definition Vector_list (h : heap T) (xi_list : list T) : result (heap T * Vector) :=
  let n := wrap (N.of_nat (length xi_list)) in
  let '(h1, p) := new_array h (wrap (2 * n)%N) in
  '(h2, size) ← store_items h1 p n xi_list;
  Ok (h2, mkVector (wrap (2 * n)%N) size p).

(** [m_data[i] = other.m_data[i]] for [i = 0 .. n-1] *)
Definition copy_elements (h : heap T) (dst src : ptr) (n : N) : result (heap T) :=
  for_loop (N.to_nat n) 0%N (λ i h, s ← load h src i; store h dst i s) h.

(** [Vector(const Vector&)] (lines 250-260) *)
Definition Vector_copy (h : heap T) (xi_other : Vector) : result (heap T * Vector) :=
  let '(h1, p) := new_array h (m_reservedSize xi_other) in
  h2 ← copy_elements h1 p (m_data xi_other) (m_size xi_other);
  Ok (h2, mkVector (m_reservedSize xi_other) (m_size xi_other) p).

(** [Vector(Vector&&)] (lines 263-276): the new container, then what is left
    of [xi_other]. *)
Definition Vector_move (h : heap T) (xi_other : Vector) : result (heap T * Vector * Vector) :=
  let '(h1, p) := new_array h (m_reservedSize xi_other) in
  h2 ← copy_elements h1 p (m_data xi_other) (m_size xi_other);
  Ok (h2, mkVector (m_reservedSize xi_other) (m_size xi_other) p,
      mkVector (m_reservedSize xi_other) 0%N Null).

(** [~Vector()] (lines 279-281) *)
Definition Vector_destroy (h : heap T) (v : Vector) : result (heap T) :=
  delete_array h (m_data v).

(** The element-wise loops of the header all have the shape
    [for (i = 0; i < m_size; ++i) m_data[i] = F(i);]
    where [F] reads the free store; the [apply] calls made by [F] are
    summed up. *)
Definition elementwise (F : heap T → N → result (slot T * nat)) (h : heap T) (v : Vector)
    : result (heap T * nat) :=
  for_loop (N.to_nat (m_size v)) 0%N
    (λ i '(h, n), '(s, k) ← F h i; h' ← store h (m_data v) i s; Ok (h', (n + k)%nat))
    (h, O).

(** The loop of lines 318-320 and 325-327:
    [for (i = 0; i < m_size; ++i) this->operator[](i) = xi_expression[i];] *)
Definition assign_elements (h : heap T) (v : Vector) (e : expr) : result (heap T * nat) :=
  elementwise (λ h i, index h e i) h v.

(** [Vector(BinaryExpression<LE, Op, RE>&&)] (lines 317-321): the members
    keep their default initializers, [m_data] is not initialized. *)
Definition Vector_expression (h : heap T) (l : expr) (t : tag) (r : expr)
    : result (heap T * Vector * nat) :=
  let this := mkVector 4%N 0%N Wild in
  '(h', n) ← assign_elements h this (Node l t r);
  Ok (h', this, n).

(** [operator=(RightExpr&&)] (lines 324-329) *)
Definition assign_expression (h : heap T) (v : Vector) (e : expr)
    : result (heap T * Vector * nat) :=
  '(h', n) ← assign_elements h v e;
  Ok (h', v, n).

(** [operator=(std::initializer_list<T>)] (lines 332-344) *)
Definition assign_list (h : heap T) (v : Vector) (xi_list : list T) : result (heap T * Vector) :=
  let n := wrap (N.of_nat (length xi_list)) in
  '(h1, v1) ← (if (m_reservedSize v <? n)%N
               then reallocate h (mkVector (wrap (2 * n)%N) (m_size v) (m_data v))
               else Ok (h, v));
  '(h2, size) ← store_items h1 (m_data v1) 0%N xi_list;
  Ok (h2, mkVector (m_reservedSize v1) size (m_data v1)).

(** ** Vector: queries and element access *)

Definition empty (v : Vector) : bool := (m_size v =? 0)%N.
Definition size (v : Vector) : size_t := m_size v.
Definition capacity (v : Vector) : size_t := m_reservedSize v.

(** [operator[](idx)] (lines 493-494) *)
Definition subscript (h : heap T) (v : Vector) (idx : size_t) : result (slot T) :=
  load h (m_data v) idx.

(** [at(pos)] (lines 497-513) *)
Definition at_ (h : heap T) (v : Vector) (pos : size_t) : result (slot T) :=
  if (pos <? m_size v)%N then load h (m_data v) pos else Throw out_of_range.

(** ** Vector: modifiers *)

(** [reserve(xi_size)] (lines 475-481) *)
Definition reserve (h : heap T) (v : Vector) (xi_size : size_t) : result (heap T * Vector) :=
  if (m_reservedSize v <? xi_size)%N
  then reallocate h (mkVector xi_size (m_size v) (m_data v))
  else Ok (h, v).

(** [shrink_to_fit()] (lines 484-487) *)
Definition shrink_to_fit (h : heap T) (v : Vector) : result (heap T * Vector) :=
  reallocate h (mkVector (m_size v) (m_size v) (m_data v)).

(** [if (m_size == m_reservedSize) { m_reservedSize *= 2; reallocate(); }] *)
Definition grow_if_full (h : heap T) (v : Vector) : result (heap T * Vector) :=
  if (m_size v =? m_reservedSize v)%N
  then reallocate h (mkVector (wrap (m_reservedSize v * 2)%N) (m_size v) (m_data v))
  else Ok (h, v).

(** [push_back(const T&)] and [push_back(T&&)] (lines 542-558): [xi_value]
    is a reference, read after the reallocation. *)
Definition push_back (h : heap T) (v : Vector) (xi_value : argument T)
    : result (heap T * Vector) :=
  '(h1, v1) ← grow_if_full h v;
  s ← read_argument h1 xi_value;
  h2 ← store h1 (m_data v1) (m_size v1) s;
  Ok (h2, mkVector (m_reservedSize v1) (wrap (m_size v1 + 1)%N) (m_data v1)).

(** [pop_back()] (lines 561-564) *)
Definition pop_back (h : heap T) (v : Vector) : result (heap T * Vector) :=
  Ok (h, mkVector (m_reservedSize v) (size_sub (m_size v) 1%N) (m_data v)).

(** [insert(xi_iterator, const T&)] (lines 582-595), with
    [pos = xi_iterator - m_data].  [iit] is taken before the reallocation;
    [xi_value] is a reference, read after the elements are moved.
    Returns the container and [iit]. *)
Definition insert (h : heap T) (v : Vector) (pos : N) (xi_value : argument T)
    : result (heap T * Vector * ptr) :=
  let iit := ptr_add (m_data v) pos in
  '(h1, v1) ← grow_if_full h v;
  h2 ← memmove h1 (ptr_add iit 1%N) iit (size_sub (m_size v1) pos);
  s ← read_argument h2 xi_value;
  h3 ← store h2 iit 0%N s;
  Ok (h3, mkVector (m_reservedSize v1) (wrap (m_size v1 + 1)%N) (m_data v1), iit).

(** [erase(xi_iterator)] (lines 675-686), with [pos = xi_iterator - m_data]. *)
Definition erase (h : heap T) (v : Vector) (pos : N) : result (heap T * Vector * ptr) :=
  let iit := ptr_add (m_data v) pos in
  h1 ← memmove h iit (ptr_add iit 1%N) (size_sub (size_sub (m_size v) pos) 1%N);
  Ok (h1, mkVector (m_reservedSize v) (size_sub (m_size v) 1%N) (m_data v), iit).

(** [clear()] (lines 721-728) *)
Definition clear (h : heap T) (v : Vector) : result (heap T * Vector) :=
  Ok (h, mkVector (m_reservedSize v) 0%N (m_data v)).

(** ** Vector: operators *)

(** [m_data[i] op= xi_expression[i]]: the value stored at index [i]. *)
Definition compound_element (o : assign_operator) (v : Vector) (e : expr) (h : heap T) (i : N)
    : result (slot T * nat) :=
  '(b, k) ← index h e i;
  a ← load h (m_data v) i;
  Ok (slot_compound o a b, k).

(** The compound forms, e.g. [operator +=] (lines 734-739):
    [for (i = 0; i < m_size; ++i) m_data[i] += xi_expression[i];] *)
Definition compound_assign (o : assign_operator) (h : heap T) (v : Vector) (e : expr)
    : result (heap T * Vector * nat) :=
  '(h', n) ← elementwise (compound_element o v e) h v;
  Ok (h', v, n).

(** ** Representation predicates *)

(** The array [m_data] points to, when it is the start of a live block. *)
Definition buffer (h : heap T) (v : Vector) : option (list (slot T)) :=
  match m_data v with
  | At b 0%N =>
      match h !! b with
      | Some (Live buf) => Some buf
      | _ => None
      end
  | _ => None
  end.

(** A container in a consistent state: it owns a live array of
    [m_reservedSize] slots and [m_size <= m_reservedSize]. *)
Definition well_formed (h : heap T) (v : Vector) : Prop :=
  match buffer h v with
  | Some buf =>
      N.of_nat (length buf) = m_reservedSize v ∧
      (m_size v ≤ m_reservedSize v)%N ∧
      (m_reservedSize v < 2 ^ 64)%N
  | None => False
  end.

(** The slots at indices [0 .. m_size - 1]. *)
Definition elements (h : heap T) (v : Vector) : list (slot T) :=
  match buffer h v with
  | Some buf => take (N.to_nat (m_size v)) buf
  | None => []
  end.

(** The slot at index [i] of the array, whatever [m_size] is. *)
Definition slot_at (h : heap T) (v : Vector) (i : nat) : option (slot T) :=
  buf ← buffer h v; buf !! i.

(** The container is well formed and holds exactly the values [l]. *)
Definition holds (h : heap T) (v : Vector) (l : list T) : Prop :=
  well_formed h v ∧ elements h v = Val <$> l.

(** The value of a read, [Indet] when there is none. *)
Definition value_of (r : result (slot T * nat)) : slot T :=
  match r with
  | Ok (s, _) => s
  | _ => Indet
  end.

(** Two free stores hold the same element at index [i] of every array. *)
Definition same_slots (h h' : heap T) (i : N) : Prop :=
  ∀ b, load h (At b 0%N) i = load h' (At b 0%N) i.

(** [hc] is [h] with the slots [0 .. i-1] of block [b] overwritten by
    [g 0 .. g (i-1)]; [buf] is the array of [b] in [h]. *)
Definition written (h : heap T) (b : nat) (buf : list (slot T)) (g : nat → slot T)
    (i : nat) (hc : heap T) : Prop :=
  length hc = length h ∧ (∀ b', b' ≠ b → hc !! b' = h !! b') ∧
  ∃ cur, hc !! b = Some (Live cur) ∧ length cur = length buf ∧
    (∀ j, (j < i)%nat → cur !! j = Some (g j)) ∧ (∀ j, (i ≤ j)%nat → cur !! j = buf !! j).

(** The argument is an element of the array of [v]. *)
Definition refers_to (v : Vector) (a : argument T) : bool :=
  match a with
  | Temp _ => false
  | Elem p => same_block p (m_data v)
  end.

(** [push_back] of each value in turn, each passed as a temporary, as in
    [v.push_back(1); v.push_back(2);]. *)
Fixpoint push_all (h : heap T) (v : Vector) (values : list T) : result (heap T * Vector) :=
  match values with
  | [] => Ok (h, v)
  | x :: rest => '(h', v') ← push_back h v (Temp x); push_all h' v' rest
  end.

End Store.

(** The binary member operator templates of [Vector], in the order of the
    header (lines 740-863): the token after [operator] and the tag of the
    node returned. *)
Definition Vector_binary_members : list (binary_operator * tag) :=
  [ (o_plus, ADD); (o_minus, SUB); (o_star, MUL); (o_slash, DIV);
    (o_amp, LAND); (o_amp, LOR); (o_caret, LXOR); (o_shl, SHL); (o_shr, SHR);
    (o_eqeq, EQ); (o_noteq, NEQ); (o_lt, LT); (o_le, LE); (o_gt, GT); (o_ge, GE) ].

(** The compound member operator templates of [Vector] (lines 734-826). *)
Definition Vector_compound_members : list assign_operator :=
  [ o_plus_eq; o_minus_eq; o_star_eq; o_slash_eq; o_amp_eq; o_pipe_eq;
    o_caret_eq; o_shl_eq; o_shr_eq ].

(** What the compiler makes of [a op b]. *)
Inductive resolution (A : Type) : Type :=
  | Resolved (a : A)
  | NoMatch
  | Ambiguous.

Arguments Resolved {A} a.
Arguments NoMatch {A}.
Arguments Ambiguous {A}.

(** The member templates named [operator o]: all take [RightExpr&&], so each
    is viable for any right operand and none is better than another. *)
Definition candidates (o : binary_operator) : list tag :=
  (filter (λ m, m.1 = o) Vector_binary_members).*2.

Definition overload (o : binary_operator) : resolution tag :=
  match candidates o with
  | [] => NoMatch
  | [t] => Resolved t
  | _ => Ambiguous
  end.

(** [a op re] for a container [a]: the node
    [BinaryExpression<const Vector&, BinaryOperations::TAG<T>, RE>(a, re)]. *)
Definition Vector_binary (o : binary_operator) (this : Vector) (re : expr) : resolution expr :=
  match overload o with
  | Resolved t => Resolved (Node (Leaf this) t re)
  | NoMatch => NoMatch
  | Ambiguous => Ambiguous
  end.

(** The operator tokens [CREATE_BINARY_EXPRESSION_OPERATOR] is instantiated
    with (lines 61-86): the nine compound tokens and the seventeen binary
    ones. *)
Inductive operator_token :=
  | compound_token (o : assign_operator)
  | binary_token (o : binary_operator).

(** [CREATE_BINARY_EXPRESSION_OPERATOR(xi_operator)] (lines 56-59): a node
    [BinaryExpression<LeftExpr, BinaryOp, RightExpr>] applied to [re] yields
    [BinaryExpression<const BinaryExpression<...>&, BinaryOp, RE>] built from
    this node and [re]:
    the node itself on the left, under its own [BinaryOp]. *)
Definition BinaryExpression_operator (xi_operator : operator_token)
    (l : expr) (t : tag) (r : expr) (re : expr) : expr :=
  Node (Node l t r) t re.

(** The tag the specification pairs with each operator (its tag catalog:
    add, subtract, multiply, divide, bitwise or/and/xor, shifts, logical
    and/or, comparisons). *)
Definition spec_matching_tag (o : binary_operator) : tag :=
  match o with
  | o_plus => ADD | o_minus => SUB | o_star => MUL | o_slash => DIV
  | o_pipe => LOR | o_amp => LAND | o_caret => LXOR | o_shl => SHL | o_shr => SHR
  | o_ampamp => AND | o_pipepipe => OR | o_eqeq => EQ | o_noteq => NEQ
  | o_lt => LT | o_le => LE | o_gt => GT | o_ge => GE
  end.

(** ** Vector: the remaining constructors, assignments and modifiers *)

(** [std::is_arithmetic<T>::value], which the [if constexpr] guards of the
    modifiers test. *)
Class IsArithmetic (T : Type) := is_arithmetic : bool.

#[global] Instance int_IsArithmetic : IsArithmetic Z := true.

(** A class type that wraps an [int] and has the operators of [int], as a
    user of the header may supply: not arithmetic for [std::is_arithmetic]. *)
Record boxed := Box { unbox : Z }.

#[global] Instance boxed_Arithmetic : Arithmetic boxed := {|
  value_init := Box 0;
  binop o a b := Box (int_binop o (unbox a) (unbox b))
|}.

#[global] Instance boxed_IsArithmetic : IsArithmetic boxed := false.

Section Members.
Context {T : Type} `{Arithmetic T} `{IsArithmetic T}.

(** [m_data[i] = xi_value] for the [n] indices from [first] on; [xi_value]
    is a reference, read at every iteration. *)
Definition fill_argument (h : heap T) (p : ptr) (first : N) (n : nat) (a : argument T)
    : result (heap T) :=
  for_loop n first (λ i h, s ← read_argument h a; store h p i s) h.

(** [p - q] for two pointers into the same array, in elements. *)
Definition ptr_diff (p q : ptr) : result Z :=
  match p, q with
  | At b off, At b' off' =>
      if bool_decide (b = b') then Ok (Z.of_N off - Z.of_N off')%Z else UB InvalidPointer
  | _, _ => UB InvalidPointer
  end.

(** The conversion of a [ptrdiff_t] to [std::size_t]. *)
Definition to_size_t (z : Z) : size_t := Z.to_N (z mod 2 ^ 64).

(** [Vector(T* xi_first, T* xi_last)] (lines 222-234) *)
Definition Vector_range (h : heap T) (xi_first xi_last : ptr) : result (heap T * Vector) :=
  d ← ptr_diff xi_last xi_first;
  let len := to_size_t d in
  let '(h1, p) := new_array h (wrap (2 * len)%N) in
  h2 ← copy_elements h1 p xi_first len;
  Ok (h2, mkVector (wrap (2 * len)%N) len p).

(** The body of [operator=(const Vector&)] (lines 284-296): [m_size] is set
    before the array is reallocated.  The function has no [return]
    statement; the model stops at the end of its body. *)
Definition assign_copy (h : heap T) (v xi_other : Vector) : result (heap T * Vector) :=
  let v0 := mkVector (m_reservedSize v) (m_size xi_other) (m_data v) in
  '(h1, v1) ← (if (m_reservedSize v0 <? m_size xi_other)%N
               then reallocate h (mkVector (wrap (2 * m_size xi_other)%N) (m_size v0) (m_data v0))
               else Ok (h, v0));
  h2 ← copy_elements h1 (m_data v1) (m_data xi_other) (m_size xi_other);
  Ok (h2, v1).

(** The body of [operator=(Vector&&)] (lines 299-314): the receiver, then
    what is left of [xi_other]. *)
Definition assign_move (h : heap T) (v xi_other : Vector) : result (heap T * Vector * Vector) :=
  '(h2, v1) ← assign_copy h v xi_other;
  Ok (h2, v1, mkVector (m_reservedSize xi_other) 0%N Null).

(** [assign(xi_count, xi_value)] (lines 346-358): [xi_value] is read after
    the reallocation. *)
Definition assign_fill (h : heap T) (v : Vector) (xi_count : size_t) (xi_value : argument T)
    : result (heap T * Vector) :=
  '(h1, v1) ← (if (m_reservedSize v <? xi_count)%N
               then reallocate h (mkVector (wrap (2 * xi_count)%N) (m_size v) (m_data v))
               else Ok (h, v));
  h2 ← fill_argument h1 (m_data v1) 0%N (N.to_nat xi_count) xi_value;
  Ok (h2, mkVector (m_reservedSize v1) xi_count (m_data v1)).

(** [assign(const T* xi_first, const T* xi_last)] (lines 361-374) *)
Definition assign_range (h : heap T) (v : Vector) (xi_first xi_last : ptr)
    : result (heap T * Vector) :=
  d ← ptr_diff xi_last xi_first;
  let count := to_size_t d in
  '(h1, v1) ← (if (m_reservedSize v <? count)%N
               then reallocate h (mkVector (wrap (count * 4)%N) (m_size v) (m_data v))
               else Ok (h, v));
  h2 ← copy_elements h1 (m_data v1) xi_first count;
  Ok (h2, mkVector (m_reservedSize v1) count (m_data v1)).

(** [assign(std::initializer_list<T>)] (lines 377-390): the items are
    written through a local index; [m_size] is not assigned. *)
Definition assign_items (h : heap T) (v : Vector) (xi_list : list T) : result (heap T * Vector) :=
  let count := wrap (N.of_nat (length xi_list)) in
  '(h1, v1) ← (if (m_reservedSize v <? count)%N
               then reallocate h (mkVector (wrap (count * 4)%N) (m_size v) (m_data v))
               else Ok (h, v));
  '(h2, _) ← store_items h1 (m_data v1) 0%N xi_list;
  Ok (h2, v1).

(** [begin()] and [end()] (lines 395-399) *)
Definition begin_ (v : Vector) : ptr := m_data v.
Definition end_ (v : Vector) : ptr := ptr_add (m_data v) (m_size v).

(** The allocation step shared by both [resize] overloads (lines 434-437). *)
Definition grow_to (h : heap T) (v : Vector) (xi_size : size_t) : result (heap T * Vector) :=
  if (m_reservedSize v <? xi_size)%N
  then reallocate h (mkVector xi_size (m_size v) (m_data v))
  else Ok (h, v).

(** [resize(xi_size)] (lines 431-449) *)
Definition resize (h : heap T) (v : Vector) (xi_size : size_t) : result (heap T * Vector) :=
  '(h1, v1) ← (if (m_size v <? xi_size)%N then grow_to h v xi_size else Ok (h, v));
  Ok (h1, mkVector (m_reservedSize v1) xi_size (m_data v1)).

(** [resize(xi_size, xi_value)] (lines 452-472): [xi_value] is read after
    the reallocation. *)
Definition resize_fill (h : heap T) (v : Vector) (xi_size : size_t) (xi_value : argument T)
    : result (heap T * Vector) :=
  '(h1, v1) ← (if (m_size v <? xi_size)%N
               then '(h1, v1) ← grow_to h v xi_size;
                    h2 ← fill_argument h1 (m_data v1) (m_size v1)
                           (N.to_nat (xi_size - m_size v1)) xi_value;
                    Ok (h2, v1)
               else Ok (h, v));
  Ok (h1, mkVector (m_reservedSize v1) xi_size (m_data v1)).

(** [front()] and [back()] (lines 516-521) *)
Definition front (h : heap T) (v : Vector) : result (slot T) := load h (m_data v) 0%N.
Definition back (h : heap T) (v : Vector) : result (slot T) :=
  load h (m_data v) (size_sub (m_size v) 1%N).

(** [if (m_size + cnt > m_reservedSize) { m_reservedSize = (m_size + cnt) << 2;
    reallocate(); }], the growth step of the bulk [insert] overloads. *)
Definition grow_for (h : heap T) (v : Vector) (cnt : size_t) : result (heap T * Vector) :=
  if (m_reservedSize v <? wrap (m_size v + cnt))%N
  then reallocate h (mkVector (wrap (wrap (m_size v + cnt) * 4)%N) (m_size v) (m_data v))
  else Ok (h, v).

(** [insert(xi_iterator, xi_count, xi_value)] (lines 614-630), with
    [pos = xi_iterator - m_data]; [f] is taken before the reallocation, and
    [xi_value] is read after the elements are moved. *)
Definition insert_fill (h : heap T) (v : Vector) (pos : N) (xi_count : size_t)
    (xi_value : argument T) : result (heap T * Vector * ptr) :=
  let f := ptr_add (m_data v) pos in
  if (xi_count =? 0)%N then Ok (h, v, f) else
  '(h1, v1) ← grow_for h v xi_count;
  h2 ← memmove h1 (ptr_add f xi_count) f (size_sub (m_size v1) pos);
  h3 ← fill_argument h2 f 0%N (N.to_nat xi_count) xi_value;
  Ok (h3, mkVector (m_reservedSize v1) (wrap (m_size v1 + xi_count)%N) (m_data v1), f).

(** [*it = item] for the items in turn, from [f] on. *)
Fixpoint store_from (h : heap T) (f : ptr) (i : N) (xi_list : list T) : result (heap T) :=
  match xi_list with
  | [] => Ok h
  | item :: rest => h' ← store h f i (Val item); store_from h' f (N.succ i) rest
  end.

(** [insert(xi_iterator, std::initializer_list<T>)] (lines 653-672) *)
Definition insert_list (h : heap T) (v : Vector) (pos : N) (xi_list : list T)
    : result (heap T * Vector * ptr) :=
  let cnt := wrap (N.of_nat (length xi_list)) in
  let f := ptr_add (m_data v) pos in
  if (cnt =? 0)%N then Ok (h, v, f) else
  '(h1, v1) ← grow_for h v cnt;
  h2 ← memmove h1 (ptr_add f cnt) f (size_sub (m_size v1) pos);
  h3 ← store_from h2 f 0%N xi_list;
  Ok (h3, mkVector (m_reservedSize v1) (wrap (m_size v1 + cnt)%N) (m_data v1), f).

(** The loop of lines 693-697, compiled for a non-arithmetic [T] only:
    [for (; xi_first != xi_last; ++xi_first)] with a destructor call on each
    element.  The result is [xi_first] as the loop leaves it: the loop ends
    only by reaching [xi_last] from below.  The destructor of a value does
    nothing here. *)
Definition destroy_range (first last : N) : result N :=
  if (is_arithmetic : bool) then Ok first
  else if (first <=? last)%N then Ok last else UB OutOfBounds.

(** [erase(xi_first, xi_last)] (lines 689-703), with
    [first = xi_first - m_data] and [last = xi_last - m_data]; [m_size] is
    reduced by [xi_last - xi_first] after the loop has moved [xi_first]. *)
Definition erase_range (h : heap T) (v : Vector) (first last : N)
    : result (heap T * Vector * ptr) :=
  let f := ptr_add (m_data v) first in
  if (first =? last)%N then Ok (h, v, f) else
  first' ← destroy_range first last;
  h1 ← memmove h f (ptr_add (m_data v) last) (size_sub (m_size v) last);
  Ok (h1, mkVector (m_reservedSize v) (size_sub (m_size v) (size_sub last first')) (m_data v), f).

End Members.

(** ** Concrete states *)

(** [a = {1,2,3}] and [b = {10,20,30}], each as [Vector()] followed by three
    [push_back] calls, or by [operator=] from the literal list, leaves it. *)
Definition ab_store : heap Z :=
  [ Live [Val 1; Val 2; Val 3; Indet]; Live [Val 10; Val 20; Val 30; Indet] ]%Z.

Definition vec_a : Vector := mkVector 4%N 3%N (At 0 0%N).

Definition vec_b : Vector := mkVector 4%N 3%N (At 1 0%N).

(** [ab_store] with a third container [c] as [Vector(2)] leaves it. *)
Definition abc_store : heap Z := (ab_store ++ [ Live [Val 0; Val 0; Indet; Indet] ])%Z.

Definition vec_c : Vector := mkVector 4%N 2%N (At 2 0%N).

(** A default-constructed container after four [push_back] calls: full. *)
Definition full_store : heap Z := [ Live [Val 1; Val 2; Val 3; Val 4] ]%Z.

Definition vec_full : Vector := mkVector 4%N 4%N (At 0 0%N).

(** [Vector(0)] in the empty free store. *)
Definition zero_store : heap Z := [ Live [] ].

Definition vec_zero : Vector := mkVector 0%N 0%N (At 0 0%N).

(** [Vector(1)] followed by a default-constructed container after three
    [push_back] calls: the second is longer than the capacity of the first. *)
Definition short_store : heap Z :=
  [ Live [Val 0; Indet]; Live [Val 1; Val 2; Val 3; Indet] ]%Z.

Definition vec_short : Vector := mkVector 2%N 1%N (At 0 0%N).

Definition vec_long : Vector := mkVector 4%N 3%N (At 1 0%N).

(** [full_store] with the values boxed: a full container of a class type. *)
Definition boxed_store : heap boxed := [ Live [Val (Box 1); Val (Box 2); Val (Box 3); Val (Box 4)] ].

(** * Facts about the model *)

Ltac list_length :=
  repeat match goal with x := _ |- _ => subst x end;
  repeat first [ rewrite length_insert | rewrite length_app | rewrite length_take
               | rewrite length_drop | rewrite length_fmap | rewrite length_replicate
               | progress cbn [length] ];
  lia.


Section Facts.
Context {T : Type} `{Arithmetic T}.
Implicit Types (h : heap T) (v : Vector) (buf : list (slot T)).

(** *** Representation *)

Lemma wrap_small n : (n < 2 ^ 64)%N → wrap n = n.
Proof. intros. unfold wrap. by apply N.mod_small. Qed.

Lemma buffer_Some h v buf :
  buffer h v = Some buf ↔ ∃ b, m_data v = At b 0 ∧ h !! b = Some (Live buf).
Proof.
  unfold buffer. split.
  - destruct (m_data v) as [| |b [|p]]; try done.
    destruct (h !! b) as [[|buf']|] eqn:E; try done.
    intros [= ->]. eauto.
  - intros (b & -> & ->). done.
Qed.

Lemma well_formed_inv h v :
  well_formed h v →
  ∃ b buf, m_data v = At b 0 ∧ h !! b = Some (Live buf) ∧
    length buf = N.to_nat (m_reservedSize v) ∧
    (m_size v ≤ m_reservedSize v)%N ∧ (m_reservedSize v < 2 ^ 64)%N.
Proof.
  unfold well_formed. destruct (buffer h v) as [buf|] eqn:E; [|done].
  apply buffer_Some in E as (b & Hd & Hb). intros (Hl & Hs & Hc).
  exists b, buf. repeat split; try done. lia.
Qed.

Lemma well_formed_intro h v b buf :
  m_data v = At b 0 → h !! b = Some (Live buf) →
  length buf = N.to_nat (m_reservedSize v) →
  (m_size v ≤ m_reservedSize v)%N → (m_reservedSize v < 2 ^ 64)%N →
  well_formed h v.
Proof.
  intros Hd Hb Hl Hs Hc. unfold well_formed.
  rewrite (proj2 (buffer_Some h v buf)) by eauto. repeat split; try done. lia.
Qed.

(** *** Reads and writes *)

Lemma load_live h b buf (i : N) s :
  h !! b = Some (Live buf) → buf !! N.to_nat i = Some s → load h (At b 0) i = Ok s.
Proof. intros Hb Hi. unfold load. rewrite Hb. rewrite N.add_0_l. by rewrite Hi. Qed.

Lemma store_live h b buf (i : N) s :
  h !! b = Some (Live buf) → (N.to_nat i < length buf)%nat →
  store h (At b 0) i s = Ok (<[b := Live (<[N.to_nat i := s]> buf)]> h).
Proof.
  intros Hb Hi. unfold store. rewrite Hb, N.add_0_l.
  destruct (N.ltb_spec i (N.of_nat (length buf))); [done | lia].
Qed.

Lemma read_range_live h b buf (off n : N) :
  h !! b = Some (Live buf) → (N.to_nat off + N.to_nat n ≤ length buf)%nat →
  read_range h (At b off) n = Ok (take (N.to_nat n) (drop (N.to_nat off) buf)).
Proof.
  intros Hb Hn. unfold read_range. rewrite Hb.
  destruct (N.leb_spec (off + n) (N.of_nat (length buf))); [done | lia].
Qed.

Lemma write_range_live h b buf (off : N) data :
  h !! b = Some (Live buf) → (N.to_nat off + length data ≤ length buf)%nat →
  write_range h (At b off) data =
    Ok (<[b := Live (take (N.to_nat off) buf ++ data
                     ++ drop (N.to_nat off + length data) buf)]> h).
Proof.
  intros Hb Hn. unfold write_range. rewrite Hb.
  destruct (N.leb_spec (off + N.of_nat (length data)) (N.of_nat (length buf))); [done | lia].
Qed.

Lemma delete_array_live h b buf :
  h !! b = Some (Live buf) → delete_array h (At b 0) = Ok (<[b := Freed]> h).
Proof. intros Hb. unfold delete_array. by rewrite Hb. Qed.

Lemma store_offset h b buf (off i : N) s :
  h !! b = Some (Live buf) → (N.to_nat (off + i) < length buf)%nat →
  store h (At b off) i s = Ok (<[b := Live (<[N.to_nat (off + i) := s]> buf)]> h).
Proof.
  intros Hb Hi. unfold store. rewrite Hb.
  destruct (N.ltb_spec (off + i) (N.of_nat (length buf))); [done | lia].
Qed.

Lemma reallocate_live h b buf (cap size : N) :
  h !! b = Some (Live buf) →
  (N.to_nat size ≤ length buf)%nat → (size ≤ cap)%N →
  reallocate h (mkVector cap size (At b 0)) =
    Ok (<[b := Freed]>
          (h ++ [Live (take (N.to_nat size) buf ++ replicate (N.to_nat cap - N.to_nat size) Indet)]),
        mkVector cap size (At (length h) 0)).
Proof.
  intros Hb Hs Hc.
  assert (Hlt : (b < length h)%nat) by (by eapply lookup_lt_Some).
  unfold reallocate, new_array, memcpy, memmove. cbn [m_data m_size m_reservedSize same_block].
  rewrite bool_decide_false by lia.
  erewrite read_range_live; [| by rewrite lookup_app_l | simpl; lia].
  cbn [mbind result_bind].
  erewrite write_range_live; [| by apply list_lookup_middle | ].
  2:{ rewrite length_take, length_replicate. simpl. lia. }
  cbn [mbind result_bind].
  erewrite delete_array_live.
  2:{ rewrite list_lookup_insert_ne by lia. by rewrite lookup_app_l. }
  cbn [mbind result_bind]. do 3 f_equal.
  rewrite <- (Nat.add_0_r (length h)) at 1.
  rewrite insert_app_r. change (N.to_nat 0) with 0%nat. rewrite drop_0. simpl.
  do 3 f_equal. rewrite length_take, drop_replicate. by rewrite Nat.min_l by lia.
Qed.

Lemma elements_buffer h v b buf :
  m_data v = At b 0 → h !! b = Some (Live buf) →
  elements h v = take (N.to_nat (m_size v)) buf.
Proof. intros Hd Hb. unfold elements. by rewrite (proj2 (buffer_Some h v buf)) by eauto. Qed.

Lemma holds_inv h v l :
  holds h v l →
  ∃ b buf, m_data v = At b 0 ∧ h !! b = Some (Live buf) ∧
    length buf = N.to_nat (m_reservedSize v) ∧
    m_size v = N.of_nat (length l) ∧ take (length l) buf = Val <$> l ∧
    (m_size v ≤ m_reservedSize v)%N ∧ (m_reservedSize v < 2 ^ 64)%N.
Proof.
  intros [Hwf Hel]. apply well_formed_inv in Hwf as (b & buf & Hd & Hb & Hl & Hs & Hc).
  rewrite (elements_buffer h v b buf) in Hel by done.
  assert (Hlen : N.to_nat (m_size v) = length l).
  { apply (f_equal length) in Hel. rewrite length_take, length_fmap in Hel. lia. }
  exists b, buf. rewrite <- Hlen. repeat split; try done. lia.
Qed.

Lemma holds_intro h v l b buf :
  m_data v = At b 0 → h !! b = Some (Live buf) →
  length buf = N.to_nat (m_reservedSize v) →
  m_size v = N.of_nat (length l) → take (length l) buf = Val <$> l →
  (m_size v ≤ m_reservedSize v)%N → (m_reservedSize v < 2 ^ 64)%N →
  holds h v l.
Proof.
  intros Hd Hb Hl Hn Ht Hs Hc. split.
  - by eapply well_formed_intro.
  - rewrite (elements_buffer h v b buf) by done. rewrite Hn, Nat2N.id. done.
Qed.

(** *** Reference parameters *)

Lemma read_argument_grown h a x b c t :
  read_argument h a = Ok (Val x) → (∀ off, a ≠ Elem (At b off)) →
  read_argument (<[b := c]> (h ++ t)) a = Ok (Val x).
Proof.
  intros Hr Hne. destruct a as [y|[| |b' off]]; try done.
  simpl in *. unfold load in *.
  destruct (h !! b') as [cl|] eqn:Hb'; [|done].
  assert (b' ≠ b) by (intros ->; by eapply Hne).
  rewrite list_lookup_insert_ne by done.
  by rewrite (lookup_app_l_Some _ _ _ _ Hb').
Qed.

Lemma read_argument_stored h b cur (j : nat) a x :
  h !! b = Some (Live cur) → read_argument h a = Ok (Val x) →
  read_argument (<[b := Live (<[j := Val x]> cur)]> h) a = Ok (Val x).
Proof.
  intros Hb Hr. destruct a as [y|[| |b' off]]; try done.
  simpl in *. unfold load in *.
  destruct (decide (b' = b)) as [->|Hne].
  - rewrite Hb in Hr.
    rewrite list_lookup_insert_eq by (by eapply lookup_lt_Some).
    destruct (decide (N.to_nat (off + 0) = j)) as [<-|Hj].
    + destruct (cur !! N.to_nat (off + 0)) eqn:Hc; [|done].
      rewrite list_lookup_insert_eq by (by eapply lookup_lt_Some). done.
    + by rewrite list_lookup_insert_ne.
  - by rewrite list_lookup_insert_ne.
Qed.

Lemma read_argument_result h (a : argument T) :
  (∃ s, read_argument h a = Ok s) ∨ (∃ f, read_argument h a = UB f).
Proof.
  destruct a as [y|[| |b off]]; simpl; unfold load; eauto.
  destruct (h !! b) as [[|buf]|]; eauto.
  destruct (buf !! N.to_nat (off + 0)); eauto.
Qed.

Lemma read_argument_live h (a : argument T) s0 b buf buf' :
  read_argument h a = Ok s0 → h !! b = Some (Live buf) → length buf' = length buf →
  ∃ s, read_argument (<[b := Live buf']> h) a = Ok s.
Proof.
  intros Hr Hb Hlen. destruct a as [y|[| |b' off]]; try done; [by eexists|].
  simpl in *. unfold load in *.
  destruct (decide (b' = b)) as [->|Hne].
  - rewrite Hb in Hr.
    rewrite list_lookup_insert_eq by (by eapply lookup_lt_Some).
    destruct (buf !! N.to_nat (off + 0)) as [s1|] eqn:Hs1; [|done].
    destruct (lookup_lt_is_Some_2 buf' (N.to_nat (off + 0))) as [s Hs].
    { rewrite Hlen. by eapply lookup_lt_Some. }
    rewrite Hs. by eexists.
  - rewrite list_lookup_insert_ne by done. by eexists.
Qed.

Lemma refers_to_other v (a : argument T) b :
  m_data v = At b 0 → refers_to v a = false → ∀ off, a ≠ Elem (At b off).
Proof.
  intros Hd Hr off ->. simpl in Hr. rewrite Hd in Hr. simpl in Hr.
  by rewrite bool_decide_true in Hr.
Qed.

(** *** push_back *)

Lemma push_back_holds h v l a x :
  holds h v l → (0 < m_reservedSize v)%N → (N.of_nat (length l) < 2 ^ 63)%N →
  read_argument h a = Ok (Val x) →
  (m_size v = m_reservedSize v → refers_to v a = false) →
  ∃ h' v', push_back h v a = Ok (h', v') ∧ holds h' v' (l ++ [x]) ∧
    (0 < m_reservedSize v')%N.
Proof.
  intros Hh Hpos Hlen Hread Hout.
  apply holds_inv in Hh as (b & buf & Hd & Hb & Hl & Hn & Ht & Hs & Hc).
  destruct v as [cap size data]; simpl in *; subst data.
  unfold push_back, grow_if_full; simpl.
  destruct (N.eqb_spec size cap) as [Heq|Hne].
  - (* the array is full: it is reallocated with twice the capacity *)
    subst cap. assert (Hw : wrap (size * 2) = (size * 2)%N) by (apply wrap_small; lia).
    rewrite Hw.
    rewrite (reallocate_live h b buf) by (done || lia).
    cbn [mbind result_bind m_data m_size m_reservedSize].
    rewrite (read_argument_grown h a x) by
      (done || by apply (refers_to_other (mkVector size size (At b 0))); [|apply Hout]).
    cbn [mbind result_bind].
    set (buf' := take (N.to_nat size) buf ++ replicate (N.to_nat (size * 2) - N.to_nat size) Indet).
    set (h1 := <[b := Freed]> (h ++ [Live buf'])).
    assert (Hlt : (b < length h)%nat) by (by eapply lookup_lt_Some).
    assert (Hb1 : h1 !! length h = Some (Live buf')).
    { unfold h1. rewrite list_lookup_insert_ne by lia. by apply list_lookup_middle. }
    assert (Hl1 : length buf' = N.to_nat (size * 2)).
    { unfold buf'. rewrite length_app, length_take, length_replicate. lia. }
    rewrite (store_live h1 (length h) buf') by (done || lia).
    cbn [mbind result_bind].
    eexists _, _. split; [done|]. split; [|simpl; lia].
    eapply (holds_intro _ _ _ (length h) (<[N.to_nat size := Val x]> buf')); simpl; try done.
    + apply list_lookup_insert_eq. unfold h1. rewrite length_insert, length_app. simpl. lia.
    + rewrite length_insert. done.
    + rewrite wrap_small by lia. rewrite length_app. simpl. lia.
    + rewrite length_app, fmap_app. simpl.
      replace (length l + 1)%nat with (S (length l)) by lia.
      assert (N.to_nat size = length l) as Hsz by lia. rewrite Hsz.
      rewrite (take_S_r _ _ (Val x)).
      * rewrite take_insert_ge by lia. unfold buf'.
        rewrite take_app_le by (rewrite length_take; lia).
        rewrite <- Hsz, take_take, Nat.min_id, Hsz, Ht. done.
      * apply list_lookup_insert_eq. lia.
    + rewrite wrap_small by lia. lia.
    + lia.
  - (* room left *)
    cbn [mbind result_bind m_data m_size m_reservedSize].
    rewrite Hread. cbn [mbind result_bind].
    rewrite (store_live h b buf) by (done || lia).
    cbn [mbind result_bind].
    eexists _, _. split; [done|]. split; [|simpl; lia].
    eapply (holds_intro _ _ _ b (<[N.to_nat size := Val x]> buf)); simpl; try done.
    + apply list_lookup_insert_eq. by eapply lookup_lt_Some.
    + rewrite length_insert. done.
    + rewrite wrap_small by lia. rewrite length_app. simpl. lia.
    + rewrite length_app, fmap_app. simpl.
      replace (length l + 1)%nat with (S (length l)) by lia.
      assert (N.to_nat size = length l) as Hsz by lia. rewrite Hsz.
      rewrite (take_S_r _ _ (Val x)).
      * rewrite take_insert_ge by lia. by rewrite Ht.
      * apply list_lookup_insert_eq. lia.
    + rewrite wrap_small by lia. lia.
Qed.

Lemma push_all_holds values : ∀ h v l,
  holds h v l → (0 < m_reservedSize v)%N →
  (N.of_nat (length l + length values) ≤ 2 ^ 63)%N →
  ∃ h' v', push_all h v values = Ok (h', v') ∧ holds h' v' (l ++ values).
Proof.
  induction values as [|x rest IH]; intros h v l Hh Hpos Hlen; simpl.
  - exists h, v. by rewrite app_nil_r.
  - simpl in Hlen.
    destruct (push_back_holds h v l (Temp x) x Hh Hpos) as (h1 & v1 & -> & Hh1 & Hpos1);
      [lia | done | done |].
    cbn [mbind result_bind].
    destruct (IH h1 v1 (l ++ [x]) Hh1 Hpos1) as (h' & v' & Hp & Hh').
    { rewrite length_app. simpl. lia. }
    exists h', v'. split; [done|]. by rewrite <- app_assoc in Hh'.
Qed.

Lemma push_back_freed h v (i : N) :
  well_formed h v → m_size v = m_reservedSize v → (m_reservedSize v < 2 ^ 63)%N →
  push_back h v (Elem (ptr_add (m_data v) i)) = UB UseAfterFree.
Proof.
  intros Hwf Hfull Hcap.
  apply well_formed_inv in Hwf as (b & buf & Hd & Hb & Hl & Hs & Hc).
  assert (Hlt : (b < length h)%nat) by (by eapply lookup_lt_Some).
  unfold push_back, grow_if_full. rewrite Hfull, N.eqb_refl.
  rewrite (wrap_small (m_reservedSize v * 2)) by lia.
  rewrite <- Hfull at 2.
  rewrite Hd, (reallocate_live h b buf) by (done || lia).
  cbn [mbind result_bind read_argument ptr_add]. unfold load.
  rewrite list_lookup_insert_eq by (rewrite length_app; lia). done.
Qed.

Lemma Vector_default_holds h :
  ∃ h0 v0, Vector_default h = Ok (h0, v0) ∧ holds h0 v0 [] ∧ m_reservedSize v0 = 4%N.
Proof.
  eexists _, _. split; [done|]. split; [|done].
  eapply (holds_intro _ _ _ (length h) (replicate 4 Indet)); try done.
  by apply list_lookup_middle.
Qed.

Lemma holds_size h v l : holds h v l → m_size v = N.of_nat (length l).
Proof. intros Hh. apply holds_inv in Hh as (b & buf & _ & _ & _ & Hn & _). done. Qed.

Lemma holds_subscript h v l (i : nat) x :
  holds h v l → l !! i = Some x → subscript h v (N.of_nat i) = Ok (Val x).
Proof.
  intros Hh Hi. apply holds_inv in Hh as (b & buf & Hd & Hb & Hl & Hn & Ht & Hs & Hc).
  unfold subscript. rewrite Hd. eapply load_live; [done|].
  rewrite Nat2N.id. rewrite <- (lookup_take_lt buf (length l)) by (by eapply lookup_lt_Some).
  rewrite Ht, list_lookup_fmap, Hi. done.
Qed.


(** *** Expressions *)

Lemma index_count h e i s n : index h e i = Ok (s, n) → n = nodes e.
Proof.
  revert s n. induction e as [v|l IHl t r IHr]; intros s n; simpl.
  - destruct (load h (m_data v) i); simpl; congruence.
  - destruct (index h l i) as [[a na]| |]; simpl; try done.
    destruct (index h r i) as [[c nc]| |]; simpl; try done.
    intros [= <- <-]. by rewrite (IHl a na), (IHr c nc).
Qed.

Lemma index_local h h' e i :
  (∀ v, v ∈ operands e → load h (m_data v) i = load h' (m_data v) i) →
  index h e i = index h' e i.
Proof.
  induction e as [v|l IHl t r IHr]; simpl; intros Hop.
  - rewrite Hop; [done | by apply list_elem_of_singleton].
  - rewrite IHl, IHr; [done | |]; intros v Hv; apply Hop, elem_of_app; auto.
Qed.

Lemma index_same_slots h h' e i :
  (∀ v, v ∈ operands e → ∃ b, m_data v = At b 0) → same_slots h h' i →
  index h e i = index h' e i.
Proof.
  intros Hb Hs. apply index_local. intros v Hv.
  destruct (Hb v Hv) as [b ->]. apply Hs.
Qed.

Lemma index_defined h e (i : N) :
  (∀ v, v ∈ operands e → well_formed h v ∧ (i < m_reservedSize v)%N) →
  ∃ s, index h e i = Ok (s, nodes e).
Proof.
  induction e as [v|l IHl t r IHr]; simpl; intros Hop.
  - destruct (Hop v) as [Hwf Hi]; [by apply list_elem_of_singleton|].
    apply well_formed_inv in Hwf as (b & buf & Hd & Hb & Hl & _).
    destruct (lookup_lt_is_Some_2 buf (N.to_nat i)) as [s Hs]; [lia|].
    exists s. rewrite Hd. by rewrite (load_live h b buf i s).
  - destruct IHl as [a ->]; [intros v Hv; apply Hop, elem_of_app; auto|].
    destruct IHr as [c ->]; [intros v Hv; apply Hop, elem_of_app; auto|].
    simpl. eauto.
Qed.

(** *** The element-wise loop *)

Lemma written_same_slots h b buf g i hc :
  h !! b = Some (Live buf) → written h b buf g i hc → same_slots hc h (N.of_nat i).
Proof.
  intros Hb (Hlen & Hother & cur & Hcur & Hl & Hlt & Hge) b'. unfold load.
  destruct (decide (b' = b)) as [->|Hne].
  - rewrite Hcur, Hb. rewrite N.add_0_l, Nat2N.id. by rewrite Hge.
  - by rewrite Hother.
Qed.

Lemma written_start h b buf g : h !! b = Some (Live buf) → written h b buf g 0 h.
Proof.
  intros Hb. split; [done|]. split; [done|]. exists buf.
  repeat split; try done. intros j Hj. lia.
Qed.

Lemma written_step h b buf g i hc cur :
  written h b buf g i hc → hc !! b = Some (Live cur) → (i < length buf)%nat →
  written h b buf g (S i) (<[b := Live (<[i := g i]> cur)]> hc).
Proof.
  intros (Hlen & Hother & cur' & Hcur & Hl & Hlt & Hge) Hc Hi.
  rewrite Hcur in Hc. injection Hc as ->.
  split; [by rewrite length_insert|]. split.
  { intros b' Hne. rewrite list_lookup_insert_ne by done. by apply Hother. }
  exists (<[i := g i]> cur). split.
  { apply list_lookup_insert_eq. by eapply lookup_lt_Some. }
  split; [by rewrite length_insert|]. split.
  - intros j Hj. destruct (decide (j = i)) as [->|Hne].
    + apply list_lookup_insert_eq. lia.
    + rewrite list_lookup_insert_ne by done. apply Hlt. lia.
  - intros j Hj. rewrite list_lookup_insert_ne by lia. apply Hge. lia.
Qed.

Lemma elementwise_loop (F : heap T → N → result (slot T * nat)) h b buf g c (n : nat) :
  h !! b = Some (Live buf) → (n ≤ length buf)%nat →
  (∀ hc i, same_slots hc h i → F hc i = F h i) →
  (∀ j, (j < n)%nat → F h (N.of_nat j) = Ok (g j, c)) →
  ∀ k i hc n0, (i + k = n)%nat → written h b buf g i hc →
  ∃ h', for_loop k (N.of_nat i)
          (λ i '(h, n), '(s, k) ← F h i; h' ← store h (At b 0) i s; Ok (h', (n + k)%nat))
          (hc, n0) = Ok (h', (n0 + k * c)%nat)
        ∧ written h b buf g n h'.
Proof.
  intros Hb Hn Hlocal HF. induction k as [|k IH]; intros i hc n0 Hik Hw.
  - exists hc. simpl. split; [f_equal; f_equal; lia|]. by replace n with i by lia.
  - cbn [for_loop mbind result_bind].
    rewrite (Hlocal hc (N.of_nat i)) by (by eapply written_same_slots).
    rewrite HF by lia. cbn [mbind result_bind].
    destruct Hw as (Hlen & Hother & cur & Hcur & Hl & Hlt & Hge).
    rewrite (store_live hc b cur) by (done || lia). cbn [mbind result_bind].
    rewrite Nat2N.id, <- Nat2N.inj_succ.
    destruct (IH (S i) (<[b := Live (<[i := g i]> cur)]> hc) (n0 + c)%nat) as (h' & Hrun & Hw').
    { lia. }
    { eapply written_step; [|done|lia]. split; [done|]. split; [done|]. by exists cur. }
    exists h'. rewrite Hrun. split; [f_equal; f_equal; lia | done].
Qed.

Lemma elementwise_written (F : heap T → N → result (slot T * nat)) h v b buf g c :
  m_data v = At b 0 → h !! b = Some (Live buf) → (N.to_nat (m_size v) ≤ length buf)%nat →
  (∀ hc i, same_slots hc h i → F hc i = F h i) →
  (∀ j, (j < N.to_nat (m_size v))%nat → F h (N.of_nat j) = Ok (g j, c)) →
  ∃ h', elementwise F h v = Ok (h', (N.to_nat (m_size v) * c)%nat)
        ∧ written h b buf g (N.to_nat (m_size v)) h'.
Proof.
  intros Hd Hb Hn Hlocal HF. unfold elementwise. rewrite Hd.
  destruct (elementwise_loop F h b buf g c (N.to_nat (m_size v)) Hb Hn Hlocal HF
              (N.to_nat (m_size v)) 0%nat h 0%nat) as (h' & Hrun & Hw).
  { lia. } { by apply written_start. }
  exists h'. split; [|done]. apply Hrun.
Qed.

Lemma written_slot_at h v b buf g n h' i :
  m_data v = At b 0 → written h b buf g n h' →
  slot_at h' v i = if decide (i < n)%nat then Some (g i) else buf !! i.
Proof.
  intros Hd (Hlen & Hother & cur & Hcur & Hl & Hlt & Hge).
  unfold slot_at. rewrite (proj2 (buffer_Some h' v cur)) by eauto. simpl.
  case_decide; [by apply Hlt | apply Hge; lia].
Qed.

Lemma written_holds h v b buf g h' l :
  m_data v = At b 0 → length buf = N.to_nat (m_reservedSize v) →
  (m_size v ≤ m_reservedSize v)%N → (m_reservedSize v < 2 ^ 64)%N →
  m_size v = N.of_nat (length l) →
  written h b buf g (length l) h' →
  (∀ j x, l !! j = Some x → g j = Val x) →
  holds h' v l.
Proof.
  intros Hd Hl Hs Hc Hn (Hlen & Hother & cur & Hcur & Hlc & Hlt & Hge) Hg.
  eapply (holds_intro _ _ _ b cur); try done; [congruence|].
  apply list_eq. intros j. rewrite list_lookup_fmap.
  destruct (l !! j) as [x|] eqn:Hj; simpl.
  - assert (j < length l)%nat by (by eapply lookup_lt_Some).
    rewrite lookup_take_lt by done. rewrite Hlt by done. f_equal. by apply Hg.
  - apply lookup_ge_None in Hj. by rewrite lookup_take_ge.
Qed.

Lemma holds_frame h h' v l :
  holds h v l → (∀ b, m_data v = At b 0 → h' !! b = h !! b) → holds h' v l.
Proof.
  intros Hh Hsame. apply holds_inv in Hh as (b & buf & Hd & Hb & Hl & Hn & Ht & Hs & Hc).
  eapply (holds_intro _ _ _ b buf); try done. by rewrite Hsame.
Qed.

Lemma well_formed_frame h h' v :
  well_formed h v → (∀ b, m_data v = At b 0 → h' !! b = h !! b) → well_formed h' v.
Proof.
  intros Hwf Hsame. apply well_formed_inv in Hwf as (b & buf & Hd & Hb & Hl & Hs & Hc).
  eapply (well_formed_intro _ _ b buf); try done. by rewrite Hsame.
Qed.

(** *** Assignment of an expression *)

Lemma assign_elements_written h c e :
  well_formed h c →
  (∀ v, v ∈ operands e → well_formed h v ∧ (m_size c ≤ m_reservedSize v)%N) →
  ∃ b buf h', m_data c = At b 0 ∧ h !! b = Some (Live buf) ∧
    assign_elements h c e = Ok (h', (N.to_nat (m_size c) * nodes e)%nat) ∧
    written h b buf (λ j, value_of (index h e (N.of_nat j))) (N.to_nat (m_size c)) h'.
Proof.
  intros Hwf Hop.
  apply well_formed_inv in Hwf as (b & buf & Hd & Hb & Hl & Hs & Hc).
  destruct (elementwise_written (λ h i, index h e i) h c b buf
              (λ j, value_of (index h e (N.of_nat j))) (nodes e)) as (h' & Hrun & Hw);
    try done.
  - lia.
  - intros hc i Hsame. apply index_same_slots; [|done].
    intros v Hv. destruct (Hop v Hv) as [Hwfv _].
    apply well_formed_inv in Hwfv as (bv & ? & ? & _). eauto.
  - intros j Hj. destruct (index_defined h e (N.of_nat j)) as [s Hs'].
    { intros v Hv. destruct (Hop v Hv). split; [done | lia]. }
    by rewrite Hs'.
  - exists b, buf, h'. done.
Qed.

Lemma written_nothing h b buf g h' :
  h !! b = Some (Live buf) → written h b buf g 0 h' → h' = h.
Proof.
  intros Hb (Hlen & Hother & cur & Hcur & Hl & Hlt & Hge).
  apply list_eq. intros b'. destruct (decide (b' = b)) as [->|Hne]; [|by apply Hother].
  rewrite Hcur, Hb. do 2 f_equal. apply list_eq. intros j. apply Hge. lia.
Qed.

Lemma compound_assign_written o h c e :
  well_formed h c →
  (∀ v, v ∈ operands e → well_formed h v ∧ (m_size c ≤ m_reservedSize v)%N) →
  ∃ b buf h', m_data c = At b 0 ∧ h !! b = Some (Live buf) ∧
    compound_assign o h c e = Ok (h', c, (N.to_nat (m_size c) * nodes e)%nat) ∧
    written h b buf (λ j, value_of (compound_element o c e h (N.of_nat j)))
      (N.to_nat (m_size c)) h'.
Proof.
  intros Hwf Hop.
  apply well_formed_inv in Hwf as (b & buf & Hd & Hb & Hl & Hs & Hc).
  destruct (elementwise_written (compound_element o c e) h c b buf
              (λ j, value_of (compound_element o c e h (N.of_nat j))) (nodes e))
    as (h' & Hrun & Hw); try done.
  - lia.
  - intros hc i Hsame. unfold compound_element.
    rewrite (index_same_slots hc h e i); [by rewrite Hd, (Hsame b) | | done].
    intros v Hv. destruct (Hop v Hv) as [Hwfv _].
    apply well_formed_inv in Hwfv as (bv & ? & ? & _). eauto.
  - intros j Hj. unfold compound_element.
    destruct (index_defined h e (N.of_nat j)) as [s Hs'].
    { intros v Hv. destruct (Hop v Hv). split; [done | lia]. }
    rewrite Hs'. cbn [mbind result_bind].
    destruct (lookup_lt_is_Some_2 buf j) as [a Ha]; [lia|].
    rewrite Hd, (load_live h b buf (N.of_nat j) a) by (by rewrite ?Nat2N.id). done.
  - exists b, buf, h'. unfold compound_assign. rewrite Hrun. done.
Qed.

(** *** Construction by size *)

Lemma fill_written h b buf x (n : nat) :
  h !! b = Some (Live buf) → (n ≤ length buf)%nat →
  ∀ k i hc, (i + k = n)%nat → written h b buf (λ _, Val x) i hc →
  ∃ h', for_loop k (N.of_nat i) (λ i h, store h (At b 0) i (Val x)) hc = Ok h'
        ∧ written h b buf (λ _, Val x) n h'.
Proof.
  intros Hb Hn. induction k as [|k IH]; intros i hc Hik Hw.
  - exists hc. split; [done|]. by replace n with i by lia.
  - cbn [for_loop mbind result_bind].
    destruct Hw as (Hlen & Hother & cur & Hcur & Hl & Hlt & Hge).
    rewrite (store_live hc b cur) by (done || lia). cbn [mbind result_bind].
    rewrite Nat2N.id, <- Nat2N.inj_succ.
    apply IH; [lia|].
    apply (written_step h b buf (λ _, Val x) i hc cur); [|done|lia].
    split; [done|]. split; [done|]. by exists cur.
Qed.

Lemma Vector_size_holds h (n : N) :
  (2 * n < 2 ^ 64)%N →
  ∃ h1 c, Vector_size h n = Ok (h1, c) ∧ holds h1 c (replicate (N.to_nat n) value_init) ∧
    c = mkVector (2 * n)%N n (At (length h) 0) ∧
    length h1 = S (length h) ∧ (∀ b, (b < length h)%nat → h1 !! b = h !! b).
Proof.
  intros Hn. unfold Vector_size, new_array, fill. rewrite (wrap_small (2 * n)) by done.
  set (buf := replicate (N.to_nat (2 * n)) (@Indet T)).
  set (h0 := h ++ [Live buf]).
  assert (Hb : h0 !! length h = Some (Live buf)) by (by apply list_lookup_middle).
  destruct (fill_written h0 (length h) buf value_init (N.to_nat n) Hb) with
    (k := N.to_nat n) (i := 0%nat) (hc := h0) as (h1 & Hrun & Hw).
  { unfold buf. rewrite length_replicate. lia. }
  { lia. } { by apply written_start. }
  change (N.of_nat 0) with 0%N in Hrun. rewrite Hrun. cbn [mbind result_bind].
  eexists _, _. split; [done|].
  assert (Hlen : length (replicate (N.to_nat n) (@value_init T _)) = N.to_nat n)
    by apply length_replicate.
  split; [|split; [done|]].
  - eapply (written_holds h0 _ (length h) buf (λ _, Val value_init)); simpl; try done.
    + unfold buf. by rewrite length_replicate.
    + lia.
    + rewrite Hlen. lia.
    + by rewrite Hlen.
    + intros j x Hj. apply lookup_replicate in Hj as [-> _]. done.
  - destruct Hw as (Hl1 & Hother & _). split.
    + rewrite Hl1. unfold h0. rewrite length_app. simpl. lia.
    + intros b Hlt. rewrite Hother by lia. unfold h0. by rewrite lookup_app_l.
Qed.

Lemma apply_lvalues t (x y : T) :
  BinaryOp_apply t lvalue x lvalue y = binop (tag_operator t) x y.
Proof. by destruct t. Qed.

Lemma index_containers h a b la lb t (j : nat) x y :
  holds h a la → holds h b lb → la !! j = Some x → lb !! j = Some y →
  index h (Node (Leaf a) t (Leaf b)) (N.of_nat j) = Ok (Val (binop (tag_operator t) x y), 1%nat).
Proof.
  intros Ha Hb Hx Hy. cbn [index].
  pose proof (holds_subscript h a la j x Ha Hx) as Hla.
  pose proof (holds_subscript h b lb j y Hb Hy) as Hlb.
  unfold subscript in Hla, Hlb. rewrite Hla, Hlb. cbn [mbind result_bind].
  unfold slot_apply. cbn [category_of]. by rewrite apply_lvalues.
Qed.

Lemma holds_block h v l : holds h v l → ∃ b, m_data v = At b 0 ∧ (b < length h)%nat.
Proof.
  intros Hh. apply holds_inv in Hh as (b & buf & Hd & Hb & _).
  exists b. split; [done|]. by eapply lookup_lt_Some.
Qed.

Lemma holds_well_formed h v l : holds h v l → well_formed h v.
Proof. by intros [? _]. Qed.

Lemma holds_capacity h v l : holds h v l → (N.of_nat (length l) ≤ m_reservedSize v)%N.
Proof. intros Hh. apply holds_inv in Hh as (b & buf & _ & _ & _ & Hn & _ & Hs & _). lia. Qed.


(** *** insert and erase without reallocation *)

Lemma size_sub_le (a b : N) : (b ≤ a)%N → (a < 2 ^ 64)%N → size_sub a b = (a - b)%N.
Proof.
  intros Hle Hlt. unfold size_sub. rewrite (wrap_small b) by lia.
  unfold wrap. replace (a + (2 ^ 64 - b))%N with ((a - b) + 1 * 2 ^ 64)%N by lia.
  rewrite N.Div0.mod_add. apply N.mod_small. lia.
Qed.

Lemma memmove_live h b buf (dst src n : N) :
  h !! b = Some (Live buf) →
  (N.to_nat src + N.to_nat n ≤ length buf)%nat →
  (N.to_nat dst + N.to_nat n ≤ length buf)%nat →
  memmove h (At b dst) (At b src) n =
    Ok (<[b := Live (take (N.to_nat dst) buf ++ take (N.to_nat n) (drop (N.to_nat src) buf)
                     ++ drop (N.to_nat dst + N.to_nat n) buf)]> h).
Proof.
  intros Hb Hsrc Hdst. unfold memmove.
  rewrite (read_range_live h b buf) by done. cbn [mbind result_bind].
  assert (Hlen : length (take (N.to_nat n) (drop (N.to_nat src) buf)) = N.to_nat n).
  { rewrite length_take, length_drop. lia. }
  rewrite (write_range_live h b buf) by (done || lia). by rewrite Hlen.
Qed.

Lemma take_drop_values (l : list T) buf (p : nat) :
  take (length l) buf = Val <$> l → (p ≤ length l)%nat →
  take p buf = Val <$> take p l ∧
  ∀ k, take (length l - k) (drop k buf) = Val <$> drop k l.
Proof.
  intros Ht Hp. split.
  - rewrite fmap_take, <- Ht, take_take. f_equal. lia.
  - intros k. rewrite fmap_drop, <- Ht, take_drop_commute.
    destruct (decide (k ≤ length l)%nat).
    + do 2 f_equal. lia.
    + rewrite !drop_ge; [done | rewrite length_take; lia | rewrite length_take; lia].
Qed.

Lemma insert_holds h v l (pos : N) x :
  holds h v l → (size v < capacity v)%N → (N.to_nat pos ≤ length l)%nat →
  ∃ h' v', insert h v pos (Temp x) = Ok (h', v', ptr_add (m_data v) pos) ∧
    holds h' v' (take (N.to_nat pos) l ++ x :: drop (N.to_nat pos) l) ∧
    capacity v' = capacity v ∧ m_data v' = m_data v.
Proof.
  unfold size, capacity. intros Hh Hroom Hpos.
  apply holds_inv in Hh as (b & buf & Hd & Hb & Hl & Hn & Ht & Hs & Hc).
  destruct v as [cap sz data]; simpl in *; subst data.
  set (p := N.to_nat pos) in *. set (n := length l) in *.
  unfold insert, grow_if_full. cbn [m_data m_size m_reservedSize ptr_add].
  destruct (N.eqb_spec sz cap) as [|_]; [lia|]. cbn [mbind result_bind m_size].
  rewrite size_sub_le by lia.
  rewrite (memmove_live h b buf) by (done || lia). cbn [mbind result_bind read_argument].
  replace (N.to_nat (0 + pos + 1)) with (S p) by lia.
  replace (N.to_nat (0 + pos)) with p by lia.
  replace (N.to_nat (sz - pos)) with (n - p)%nat by lia.
  destruct (lookup_lt_is_Some_2 buf p) as [s Hsp]; [lia|].
  rewrite (take_S_r buf p s Hsp).
  set (tail := take (n - p) (drop p buf) ++ drop (S p + (n - p)) buf).
  assert (Hlp : length (take p buf) = p) by (rewrite length_take; lia).
  erewrite store_offset; [| by apply list_lookup_insert_eq; eapply lookup_lt_Some |].
  2:{ unfold tail. rewrite !length_app, !length_take, !length_drop. simpl. lia. }
  cbn [mbind result_bind]. rewrite list_insert_insert_eq.
  replace (N.to_nat (0 + pos + 0)) with p by lia.
  eexists _, _. split; [done|]. split; [|done].
  destruct (take_drop_values l buf p Ht Hpos) as [Htp Htd].
  eapply (holds_intro _ _ _ b (<[p := Val x]> ((take p buf ++ [s]) ++ tail)));
    cbn [m_data m_size m_reservedSize]; try done.
  - apply list_lookup_insert_eq. by eapply lookup_lt_Some.
  - unfold tail. list_length.
  - rewrite wrap_small by lia. list_length.
  - rewrite <- app_assoc. rewrite insert_app_r_alt by lia. rewrite Hlp, Nat.sub_diag.
    simpl. unfold tail.
    replace (take p l ++ x :: drop p l) with ((take p l ++ [x]) ++ drop p l)
      by (by rewrite <- app_assoc).
    rewrite !fmap_app, <- Htp, <- Htd. simpl.
    rewrite (cons_middle (Val x)), !app_assoc.
    apply take_app_length'. list_length.
  - rewrite wrap_small by lia. lia.
Qed.

Lemma erase_holds h v l (pos : N) :
  holds h v l → (N.to_nat pos < length l)%nat →
  ∃ h' v', erase h v pos = Ok (h', v', ptr_add (m_data v) pos) ∧
    holds h' v' (delete (N.to_nat pos) l) ∧
    capacity v' = capacity v ∧ m_data v' = m_data v.
Proof.
  unfold capacity. intros Hh Hpos.
  apply holds_inv in Hh as (b & buf & Hd & Hb & Hl & Hn & Ht & Hs & Hc).
  destruct v as [cap sz data]; simpl in *; subst data.
  set (p := N.to_nat pos) in *. set (n := length l) in *.
  unfold erase. cbn [m_data m_size m_reservedSize ptr_add].
  rewrite (size_sub_le sz pos) by lia. rewrite !size_sub_le by lia.
  rewrite (memmove_live h b buf) by (done || lia). cbn [mbind result_bind].
  replace (N.to_nat (0 + pos + 1)) with (S p) by lia.
  replace (N.to_nat (0 + pos)) with p by lia.
  replace (N.to_nat (sz - pos - 1)) with (n - S p)%nat by lia.
  eexists _, _. split; [done|]. split; [|done].
  destruct (take_drop_values l buf p Ht) as [Htp Htd]; [lia|].
  assert (Hld : length (delete p l) = (n - 1)%nat).
  { rewrite delete_take_drop. list_length. }
  eapply (holds_intro _ _ _ b (take p buf ++ take (n - S p) (drop (S p) buf)
                                 ++ drop (p + (n - S p)) buf));
    cbn [m_data m_size m_reservedSize]; try done.
  - apply list_lookup_insert_eq. by eapply lookup_lt_Some.
  - list_length.
  - rewrite Hld. lia.
  - rewrite Hld, delete_take_drop, fmap_app, <- Htp, <- (Htd (S p)).
    rewrite app_assoc. apply take_app_length'. list_length.
  - lia.
Qed.

(** *** Literal lists *)

Lemma store_items_live (l : list T) : ∀ h b buf (start : N),
  h !! b = Some (Live buf) →
  (N.to_nat start + length l ≤ length buf)%nat → (N.of_nat (length buf) < 2 ^ 64)%N →
  store_items h (At b 0) start l =
    Ok (<[b := Live (take (N.to_nat start) buf ++ (Val <$> l)
                     ++ drop (N.to_nat start + length l) buf)]> h,
        (start + N.of_nat (length l))%N).
Proof.
  induction l as [|item rest IH]; intros h b buf start Hb Hfit Hmax.
  - simpl. rewrite Nat.add_0_r, N.add_0_r, take_drop.
    rewrite list_insert_id by done. done.
  - cbn [store_items]. simpl in Hfit.
    rewrite (store_live h b buf) by (done || lia). cbn [mbind result_bind].
    rewrite wrap_small by lia.
    rewrite (IH _ b (<[N.to_nat start := Val item]> buf)).
    + rewrite list_insert_insert_eq. do 2 f_equal.
      * do 2 f_equal. replace (N.to_nat (start + 1)) with (S (N.to_nat start)) by lia.
        rewrite (take_S_r _ _ (Val item)) by (apply list_lookup_insert_eq; lia).
        rewrite take_insert_ge by lia. rewrite drop_insert_lt by lia.
        rewrite <- app_assoc. simpl.
        by replace (N.to_nat start + S (length rest))%nat
          with (S (N.to_nat start + length rest)) by lia.
      * simpl. lia.
    + apply list_lookup_insert_eq. by eapply lookup_lt_Some.
    + rewrite length_insert. lia.
    + by rewrite length_insert.
Qed.

Lemma apply_lvalue_prvalue t o oa (x y : T) :
  numeric_tag t = Some (o, oa) → BinaryOp_apply t lvalue x prvalue y = binop o y x.
Proof. intros Ht. by destruct t; simpl in Ht; try done; injection Ht as <- <-. Qed.


End Facts.

(** * Properties of the container and of expressions *)

Section Properties.
Context {T : Type} `{Arithmetic T}.
Implicit Types (h : heap T) (v : Vector) (buf : list (slot T)).

(** C3.  Assigning an expression [e] into a well-formed container [c], where
    every container [e] refers to is well formed and at least as long as [c]
    (in particular when they are longer), succeeds and writes exactly the
    slots [0 .. c.length()-1] of [c], each with the value of [e] at that index:
    the fields of [c] (length, capacity, array) are unchanged, the slots of
    [c] from index [c.length()] on are unchanged, every other array of the
    free store is unchanged, [c.length()] element evaluations are made, and
    when [c] has length 0 the free store is unchanged. *)
Theorem assign_expression_frame h c e :
  well_formed h c →
  (∀ v, v ∈ operands e → well_formed h v ∧ (size c ≤ size v)%N) →
  ∃ h' c' n, assign_expression h c e = Ok (h', c', n) ∧
    size c' = size c ∧ capacity c' = capacity c ∧ m_data c' = m_data c ∧
    (∀ i, (N.of_nat i < size c)%N →
       ∃ s, index h e (N.of_nat i) = Ok (s, nodes e) ∧ slot_at h' c' i = Some s) ∧
    (∀ i, (size c ≤ N.of_nat i)%N → slot_at h' c' i = slot_at h c i) ∧
    length h' = length h ∧
    (∀ b, m_data c ≠ At b 0 → h' !! b = h !! b) ∧
    n = (N.to_nat (size c) * nodes e)%nat ∧
    (size c = 0%N → h' = h).
Proof.
  unfold size, capacity. intros Hwf Hop.
  assert (Hcap : ∀ v, v ∈ operands e → well_formed h v ∧ (m_size c ≤ m_reservedSize v)%N).
  { intros v Hv. destruct (Hop v Hv) as [Hwfv Hlen]. split; [done|].
    apply well_formed_inv in Hwfv as (? & ? & _ & _ & _ & ? & _). lia. }
  destruct (assign_elements_written h c e Hwf Hcap) as (b & buf & h' & Hd & Hb & Hrun & Hw).
  exists h', c, (N.to_nat (m_size c) * nodes e)%nat.
  split; [unfold assign_expression; by rewrite Hrun|].
  do 3 (split; [done|]).
  split; [|split; [|split; [|split; [|split; [done|]]]]].
  - intros i Hi. rewrite (written_slot_at h c b buf _ _ h' i Hd Hw).
    rewrite decide_True by lia.
    destruct (index_defined h e (N.of_nat i)) as [s Hs].
    { intros v Hv. destruct (Hcap v Hv). split; [done | lia]. }
    exists s. by rewrite Hs.
  - intros i Hi. rewrite (written_slot_at h c b buf _ _ h' i Hd Hw).
    rewrite decide_False by lia.
    unfold slot_at. by rewrite (proj2 (buffer_Some h c buf)) by eauto.
  - by destruct Hw.
  - intros b' Hne. destruct Hw as (_ & Hother & _). apply Hother. congruence.
  - intros Hz. rewrite Hz in Hw. by eapply written_nothing.
Qed.

(** C4.  [at(pos)] throws [out_of_range] exactly when [pos >= length]; on a
    well-formed container with [pos < length] it returns the element at index
    [pos].  [at_] reads the free store and the fields and returns nothing
    else, so the container is not modified.  For a container holding three
    elements, [at(5)] throws and [at(2)] returns the third element. *)
Theorem at_checked h v pos :
  (at_ h v pos = Throw out_of_range ↔ (size v ≤ pos)%N) ∧
  (well_formed h v → (pos < size v)%N →
     ∃ s, at_ h v pos = Ok s ∧ elements h v !! N.to_nat pos = Some s) ∧
  (∀ x0 x1 x2, holds h v [x0; x1; x2] →
     at_ h v 5%N = Throw out_of_range ∧ at_ h v 2%N = Ok (Val x2)).
Proof.
  unfold at_, size. split; [|split].
  - destruct (N.ltb_spec pos (m_size v)) as [Hlt|Hge].
    + split; [|lia]. unfold load.
      destruct (m_data v) as [| |b off]; try done.
      destruct (h !! b) as [[|buf]|]; try done.
      by destruct (buf !! N.to_nat (off + pos)).
    + done.
  - intros Hwf Hlt. apply well_formed_inv in Hwf as (b & buf & Hd & Hb & Hl & Hs & Hc).
    destruct (N.ltb_spec pos (m_size v)) as [_|]; [|lia].
    destruct (lookup_lt_is_Some_2 buf (N.to_nat pos)) as [s Hsl]; [lia|].
    exists s. rewrite Hd, (load_live h b buf pos s) by done. split; [done|].
    rewrite (elements_buffer h v b buf) by done. rewrite lookup_take_lt by lia. done.
  - intros x0 x1 x2 Hh. pose proof (holds_size _ _ _ Hh) as Hsz. simpl in Hsz.
    rewrite Hsz. split; [done|]. simpl.
    apply (holds_subscript h v _ 2 x2 Hh). done.
Qed.


(** C5.  From a default-constructed container (length 0), [push_back] of the
    values [v0 .. v(N-1)] in turn, each passed as a temporary, succeeds, and
    afterwards the length is [N] and the element at every index [i < N] is
    [v_i] ([N] is at most 2^63, so that doubling the capacity stays within
    [std::size_t]).  A further call whose argument is an element of the
    container itself, [v.push_back(v[i])], appends [v_i] only while there is
    room: when the container is full, [reallocate()] releases the array
    before [xi_value] is read, and the call reads the freed array. *)
Theorem push_back_sequence h (values : list T) :
  (N.of_nat (length values) ≤ 2 ^ 63)%N →
  ∃ h0 v0 h' v', Vector_default h = Ok (h0, v0) ∧ size v0 = 0%N ∧
    push_all h0 v0 values = Ok (h', v') ∧
    size v' = N.of_nat (length values) ∧
    (∀ i x, values !! i = Some x → subscript h' v' (N.of_nat i) = Ok (Val x)) ∧
    (∀ i, size v' = capacity v' → (N.of_nat (length values) < 2 ^ 63)%N →
       push_back h' v' (Elem (ptr_add (m_data v') i)) = UB UseAfterFree) ∧
    (∀ i x, (size v' < capacity v')%N → (N.of_nat (length values) < 2 ^ 63)%N →
       values !! i = Some x →
       ∃ h'' v'', push_back h' v' (Elem (ptr_add (m_data v') (N.of_nat i))) = Ok (h'', v'') ∧
         size v'' = N.of_nat (S (length values)) ∧
         subscript h'' v'' (N.of_nat (length values)) = Ok (Val x)).
Proof.
  intros Hlen.
  destruct (Vector_default_holds h) as (h0 & v0 & Hctor & Hh0 & Hcap).
  destruct (push_all_holds values h0 v0 [] Hh0) as (h' & v' & Hrun & Hh'); [lia | done |].
  exists h0, v0, h', v'. split; [done|].
  split; [exact (holds_size _ _ _ Hh0)|]. split; [done|]. simpl in Hh'.
  pose proof (holds_size _ _ _ Hh') as Hsz.
  split; [done|].
  split; [intros i x Hi; by eapply holds_subscript|].
  unfold size, capacity. split.
  - intros i Hfull Hsmall. apply push_back_freed; [by eapply holds_well_formed | done | lia].
  - intros i x Hroom Hsmall Hi.
    pose proof (holds_subscript _ _ _ i x Hh' Hi) as Hread.
    destruct (holds_block _ _ _ Hh') as (b & Hd & _).
    destruct (push_back_holds h' v' values (Elem (ptr_add (m_data v') (N.of_nat i))) x Hh')
      as (h'' & v'' & Hpush & Hh'' & _).
    + lia.
    + done.
    + unfold subscript in Hread. rewrite Hd in *. simpl.
      unfold load in *. by rewrite N.add_0_r.
    + lia.
    + exists h'', v''. split; [done|].
      rewrite (holds_size _ _ _ Hh''), length_app. simpl. split; [f_equal; lia|].
      eapply holds_subscript; [done|]. by rewrite lookup_app_r, Nat.sub_diag.
Qed.


(** C9.  Reading element [i] of a node with left operand [l], right operand
    [r] and tag [t] returns [t::apply(l[i], r[i])], the operands being read
    recursively (the overload of [apply] follows their value categories);
    every successful read makes one [apply] call per node of the subtree, and
    its result is the same in any two free stores that hold the same element
    [i] in the containers the node refers to: nothing is cached. *)
Theorem node_index h l t r i :
  (∀ a n b m, index h l i = Ok (a, n) → index h r i = Ok (b, m) →
     index h (Node l t r) i =
       Ok (slot_apply t (category_of l) a (category_of r) b, S (n + m))) ∧
  (∀ s n, index h (Node l t r) i = Ok (s, n) → n = nodes (Node l t r)) ∧
  (∀ h', (∀ v, v ∈ operands (Node l t r) → load h' (m_data v) i = load h (m_data v) i) →
     index h' (Node l t r) i = index h (Node l t r) i).
Proof.
  split; [|split].
  - intros a n b m Hl Hr. cbn [index]. by rewrite Hl, Hr.
  - intros s n. apply index_count.
  - intros h' Hsame. by apply index_local.
Qed.


(** C10.  Constructing a container from a binary expression leaves the free
    store as it is, makes no [apply] call (so no element of the expression is
    evaluated) and yields a container of length 0, whatever the operands. *)
Theorem Vector_expression_empty h l t r :
  ∃ v, Vector_expression h l t r = Ok (h, v, 0%nat) ∧ size v = 0%N ∧ empty v = true.
Proof. by eexists. Qed.


(** C6.  [push_back] on a well-formed container of capacity 0 (as [Vector(0)]
    or [shrink_to_fit()] of an empty container leave it): doubling leaves the
    capacity 0, and the element is written outside the array.  Whatever the
    argument is bound to, the call is undefined behaviour. *)
Theorem push_back_zero_capacity h v x :
  well_formed h v → capacity v = 0%N →
  ∃ h1 v1, grow_if_full h v = Ok (h1, v1) ∧ capacity v1 = 0%N ∧
    push_back h v (Temp x) = UB OutOfBounds ∧
    (∀ a, ∃ f, push_back h v a = UB f).
Proof.
  unfold capacity. intros Hwf Hcap.
  apply well_formed_inv in Hwf as (b & buf & Hd & Hb & Hl & Hs & Hc).
  destruct v as [cap sz data]; simpl in *; subst cap data.
  assert (sz = 0%N) as -> by lia.
  unfold push_back, grow_if_full. simpl.
  change (wrap (0 * 2)) with 0%N.
  rewrite (reallocate_live h b buf) by (done || lia).
  eexists _, _. split; [done|]. split; [done|].
  assert (Hlt : (b < length h)%nat) by (by eapply lookup_lt_Some).
  assert (Hstore : ∀ s, store (<[b := Freed]> (h ++ [Live (take (N.to_nat 0) buf ++
                          replicate (N.to_nat 0 - N.to_nat 0) Indet)]))
                     (At (length h) 0) 0%N s = UB OutOfBounds).
  { intros s. unfold store.
    rewrite list_lookup_insert_ne by lia. rewrite list_lookup_middle by done. done. }
  cbn [mbind result_bind m_data m_size read_argument]. split.
  - by rewrite Hstore.
  - intros a. destruct (read_argument_result
      (<[b := Freed]> (h ++ [Live (take (N.to_nat 0) buf ++
                                   replicate (N.to_nat 0 - N.to_nat 0) Indet)])) a)
      as [[s ->]|[f ->]]; cbn [mbind result_bind]; [|by eexists].
    rewrite Hstore. by eexists.
Qed.


(** C7.  [insert] of one element into a well-formed container that is full
    (length = capacity), the case in which the insertion grows the capacity:
    the position [iit] is taken before [reallocate()] and refers to the array
    that [reallocate()] releases, so the call is undefined behaviour, a use
    after free for every capacity below 2^63, whatever the argument is bound
    to.  The round trip of inserting and erasing therefore does not restore
    the sequence in this case. *)
Theorem insert_when_full h v pos (a : argument T) :
  well_formed h v → size v = capacity v →
  ∃ f, insert h v pos a = UB f ∧ ((capacity v < 2 ^ 63)%N → f = UseAfterFree).
Proof.
  unfold size, capacity. intros Hwf Hfull.
  apply well_formed_inv in Hwf as (b & buf & Hd & Hb & Hl & Hs & Hc).
  destruct v as [cap sz data]; simpl in *; subst sz data.
  assert (Hlt : (b < length h)%nat) by (by eapply lookup_lt_Some).
  unfold insert, grow_if_full. cbn [m_data m_size m_reservedSize ptr_add].
  rewrite N.eqb_refl.
  destruct (N.le_gt_cases cap (wrap (cap * 2))) as [Hle|Hgt].
  - rewrite (reallocate_live h b buf) by (done || lia).
    cbn [mbind result_bind m_data m_size]. unfold memmove, read_range.
    rewrite list_lookup_insert_eq by (rewrite length_app; lia). eauto.
  - assert (Hbig : ¬ (cap < 2 ^ 63)%N).
    { intros Hsmall. rewrite wrap_small in Hgt by lia. lia. }
    unfold reallocate, new_array, memcpy, memmove.
    cbn [m_data m_size m_reservedSize same_block].
    rewrite bool_decide_false by lia.
    erewrite read_range_live; [| by rewrite lookup_app_l | simpl; lia].
    cbn [mbind result_bind]. unfold write_range.
    rewrite list_lookup_middle by done.
    rewrite length_take, length_replicate.
    destruct (N.leb_spec (0 + N.of_nat (N.to_nat cap `min` length (drop (N.to_nat 0) buf)))
                (N.of_nat (N.to_nat (wrap (cap * 2))))) as [Hbad|_].
    + change (N.to_nat 0) with 0%nat in Hbad. rewrite drop_0 in Hbad. lia.
    + simpl. eexists. split; [done|]. intros Hsmall. by destruct Hbig.
Qed.

(** X2.  Without reallocation (length < capacity), inserting at a position
    [pos <= length] and then erasing position [pos] succeeds and restores
    the sequence of elements, the length and the capacity, whatever object
    the inserted reference is bound to: a temporary, or an element of a live
    array, also of the container itself. *)
Theorem insert_erase_roundtrip h v l (pos : N) (a : argument T) :
  holds h v l → (size v < capacity v)%N → (N.to_nat pos ≤ length l)%nat →
  (∃ s, read_argument h a = Ok s) →
  ∃ h1 v1 p1 h2 v2 p2, insert h v pos a = Ok (h1, v1, p1) ∧
    erase h1 v1 pos = Ok (h2, v2, p2) ∧ holds h2 v2 l ∧
    size v2 = size v ∧ capacity v2 = capacity v.
Proof.
  unfold size, capacity. intros Hh Hroom Hpos [s0 Hs0].
  apply holds_inv in Hh as (b & buf & Hd & Hb & Hl & Hn & Ht & Hs & Hc).
  destruct v as [cap sz data]; simpl in *; subst data.
  set (p := N.to_nat pos) in *. set (n := length l) in *.
  assert (Hlt : (b < length h)%nat) by (by eapply lookup_lt_Some).
  unfold insert, grow_if_full. cbn [m_data m_size m_reservedSize ptr_add].
  destruct (N.eqb_spec sz cap) as [|_]; [lia|]. cbn [mbind result_bind m_size].
  rewrite size_sub_le by lia.
  rewrite (memmove_live h b buf) by (done || lia). cbn [mbind result_bind].
  replace (N.to_nat (0 + pos + 1)) with (S p) by lia.
  replace (N.to_nat (0 + pos)) with p by lia.
  replace (N.to_nat (sz - pos)) with (n - p)%nat by lia.
  set (buf1 := take (S p) buf ++ take (n - p) (drop p buf) ++ drop (S p + (n - p)) buf).
  assert (Hl1 : length buf1 = length buf) by (unfold buf1; list_length).
  destruct (read_argument_live h a s0 b buf buf1 Hs0 Hb Hl1) as [s Hs1].
  rewrite Hs1. cbn [mbind result_bind].
  erewrite store_offset; [| by apply list_lookup_insert_eq | lia].
  cbn [mbind result_bind]. rewrite list_insert_insert_eq.
  replace (N.to_nat (0 + pos + 0)) with p by lia.
  set (buf2 := <[p := s]> buf1).
  assert (Hl2 : length buf2 = length buf) by (unfold buf2; by rewrite length_insert).
  rewrite (wrap_small (sz + 1)) by lia.
  eexists _, _, _, _, _, _. split; [reflexivity|].
  unfold erase. cbn [m_data m_size m_reservedSize ptr_add].
  rewrite (size_sub_le (sz + 1) pos) by lia.
  rewrite (size_sub_le (sz + 1 - pos) 1) by lia.
  rewrite (size_sub_le (sz + 1) 1) by lia.
  erewrite memmove_live; [| by apply list_lookup_insert_eq | lia | lia].
  cbn [mbind result_bind]. rewrite list_insert_insert_eq.
  replace (N.to_nat (0 + pos + 1)) with (S p) by lia.
  replace (N.to_nat (0 + pos)) with p by lia.
  replace (N.to_nat (sz + 1 - pos - 1)) with (n - p)%nat by lia.
  split; [reflexivity|].
  cbn [m_size m_reservedSize]. split; [|split; [lia | done]].
  assert (H1 : take p buf2 = take p buf).
  { unfold buf2. rewrite take_insert_ge by done. unfold buf1.
    rewrite take_app_le by list_length. rewrite take_take. f_equal. lia. }
  assert (H2 : take (n - p) (drop (S p) buf2) = take (n - p) (drop p buf)).
  { unfold buf2. rewrite drop_insert_lt by lia. unfold buf1.
    rewrite drop_app_length' by list_length. apply take_app_length'. list_length. }
  rewrite H1, H2.
  eapply (holds_intro _ _ _ b
            (take p buf ++ take (n - p) (drop p buf) ++ drop (p + (n - p)) buf2));
    cbn [m_data m_size m_reservedSize]; try done.
  - apply list_lookup_insert_eq. done.
  - list_length.
  - fold n. lia.
  - rewrite app_assoc, take_take_drop. fold n.
    replace (p + (n - p))%nat with n by lia.
    rewrite take_app_le by list_length. rewrite take_take, Nat.min_id. done.
  - lia.
Qed.


(** X3.  The literal-list constructor yields a container whose length and
    capacity are twice the length of the list: the slots before the values
    are never written. *)
Theorem Vector_list_doubles h (l : list T) :
  (2 * N.of_nat (length l) < 2 ^ 64)%N →
  ∃ h' v, Vector_list h l = Ok (h', v) ∧
    size v = (2 * N.of_nat (length l))%N ∧ capacity v = (2 * N.of_nat (length l))%N ∧
    elements h' v = replicate (length l) Indet ++ (Val <$> l).
Proof.
  intros Hn. unfold Vector_list, new_array.
  rewrite (wrap_small (N.of_nat (length l))) by lia.
  rewrite (wrap_small (2 * N.of_nat (length l))) by lia.
  set (n := length l).
  rewrite (store_items_live l _ (length h) (replicate (N.to_nat (2 * N.of_nat n)) Indet)).
  - cbn [mbind result_bind]. eexists _, _. split; [done|].
    unfold size, capacity. cbn [m_size m_reservedSize].
    split; [fold n; lia|]. split; [done|].
    erewrite elements_buffer; [|done|].
    2:{ apply list_lookup_insert_eq. rewrite length_app. simpl. lia. }
    cbn [m_size]. rewrite take_replicate, drop_replicate.
    replace (N.to_nat (N.of_nat n + N.of_nat n)) with (n + n)%nat by lia.
    rewrite Nat2N.id. fold n.
    replace (N.to_nat (2 * N.of_nat n) - (n + n))%nat with 0%nat by lia.
    replace (n `min` N.to_nat (2 * N.of_nat n)) with n by lia.
    simpl. rewrite app_nil_r. apply take_ge. list_length.
  - by apply list_lookup_middle.
  - rewrite length_replicate. fold n. lia.
  - rewrite length_replicate. lia.
Qed.


(** X1.  For every operator that has exactly one binary member template in
    [Vector] (+ - * / ^ << >> == != < <= > >=), [a op b] is the node with the
    tag the specification pairs with the operator, and reading index [j] of
    it yields [a[j] op b[j]]. *)
Theorem unique_operator_elementwise h a b la lb o t (j : nat) x y :
  overload o = Resolved t →
  holds h a la → holds h b lb → la !! j = Some x → lb !! j = Some y →
  t = spec_matching_tag o ∧
  Vector_binary o a (Leaf b) = Resolved (Node (Leaf a) t (Leaf b)) ∧
  index h (Node (Leaf a) t (Leaf b)) (N.of_nat j) = Ok (Val (binop o x y), 1%nat).
Proof.
  intros Ho Ha Hb Hx Hy. unfold Vector_binary. rewrite Ho.
  destruct o; vm_compute in Ho; try done; injection Ho as <-;
    (split; [done|]; split; [done|]; by erewrite index_containers).
Qed.

(** X4.  When the left operand is a container and the right operand is a
    node, the numeric tags select the overload [apply(const T& a, T&& b)],
    which computes [b op= a]: the node yields [r[i] op l[i]], the operands
    swapped. *)
Theorem right_node_operands_swapped h a l t' r t o oa i x y n :
  numeric_tag t = Some (o, oa) →
  index h (Leaf a) i = Ok (Val x, O) → index h (Node l t' r) i = Ok (Val y, n) →
  index h (Node (Leaf a) t (Node l t' r)) i = Ok (Val (binop o y x), S n).
Proof.
  intros Ht Ha Hn. change (index h (Node (Leaf a) t (Node l t' r)) i) with
    ('(a0, n0) ← index h (Leaf a) i; '(b0, m0) ← index h (Node l t' r) i;
     Ok (slot_apply t lvalue a0 prvalue b0, S (n0 + m0))).
  rewrite Ha, Hn. cbn [mbind result_bind slot_apply].
  by rewrite (apply_lvalue_prvalue t o oa).
Qed.

(** X5.  An operator applied to a node ignores its token: the new node
    carries the tag of the node it is applied to. *)
Theorem chained_operator_keeps_tag h xi_operator l t r re i a n b m :
  index h (Node l t r) i = Ok (a, n) → index h re i = Ok (b, m) →
  index h (BinaryExpression_operator xi_operator l t r re) i =
    Ok (slot_apply t prvalue a (category_of re) b, S (n + m)).
Proof.
  intros Hl Hr. unfold BinaryExpression_operator.
  change (index h (Node (Node l t r) t re) i) with
    ('(a0, n0) ← index h (Node l t r) i; '(b0, m0) ← index h re i;
     Ok (slot_apply t prvalue a0 (category_of re) b0, S (n0 + m0))).
  by rewrite Hl, Hr.
Qed.

End Properties.

(** * Scenarios on [int] *)

(** The concrete states are what the constructors and [push_back] produce. *)
Example ab_store_built :
  ('(h, a) ← Vector_default []; '(h, a) ← push_all h a [1; 2; 3]%Z;
   '(h, b) ← Vector_default h; '(h, b) ← push_all h b [10; 20; 30]%Z;
   Ok (h, a, b)) = Ok (ab_store, vec_a, vec_b).
Proof. reflexivity. Qed.

Example ab_store_assigned :
  ('(h, a) ← Vector_default []; '(h, a) ← assign_list h a [1; 2; 3]%Z;
   '(h, b) ← Vector_default h; '(h, b) ← assign_list h b [10; 20; 30]%Z;
   Ok (h, a, b)) = Ok (ab_store, vec_a, vec_b).
Proof. reflexivity. Qed.

Example abc_store_built : Vector_size ab_store 2%N = Ok (abc_store, vec_c).
Proof. reflexivity. Qed.

Example full_store_built :
  ('(h, v) ← Vector_default []; push_all h v [1; 2; 3; 4]%Z) = Ok (full_store, vec_full).
Proof. reflexivity. Qed.

Example zero_store_built : Vector_size [] 0%N = Ok (zero_store, vec_zero).
Proof. reflexivity. Qed.

(** [v.push_back(v[0])] after four calls with literals, when the container is
    full, and after three, when there is room. *)
Example push_back_own_element :
  ('(h, v) ← Vector_default []; '(h, v) ← push_all h v [1; 2; 3; 4]%Z;
   push_back h v (Elem (ptr_add (m_data v) 0%N))) = UB UseAfterFree ∧
  ∃ h v, ('(h, v) ← Vector_default []; '(h, v) ← push_all h v [1; 2; 3]%Z;
          push_back h v (Elem (ptr_add (m_data v) 0%N))) = Ok (h, v) ∧
    elements h v = [Val 1; Val 2; Val 3; Val 1]%Z.
Proof. split; [reflexivity|]. by eexists _, _. Qed.

(** A default-constructed container reaches capacity 0 by [shrink_to_fit()];
    the next [push_back] writes outside the array. *)
Example shrink_then_push_back :
  ∃ h v, ('(h, v) ← Vector_default []; shrink_to_fit h v) = Ok (h, v) ∧
    capacity v = 0%N ∧ push_back h v (Temp 7%Z) = UB OutOfBounds.
Proof. by eexists _, _. Qed.

(** The sibling of the literal-list constructor, [operator=] from a literal
    list, starts writing at index 0. *)
Example assign_list_scenario :
  ∃ h v, ('(h, v) ← Vector_default []; assign_list h v [1; 2; 3]%Z) = Ok (h, v) ∧
    size v = 3%N ∧ elements h v = [Val 1; Val 2; Val 3]%Z.
Proof. by eexists _, _. Qed.

(** C1.  For containers [a] holding 1,2,3 and [b] holding 10,20,30 and a
    container [c] constructed with size 3: [c = a + b] succeeds and leaves
    [c] holding 11,22,33, and then [c += a] succeeds and leaves [c] holding
    12,24,36. *)
Theorem sum_then_add_assign (h : heap Z) (a b : Vector) :
  holds h a [1; 2; 3]%Z → holds h b [10; 20; 30]%Z →
  ∃ h1 c e h2 n h3 m,
    Vector_size h 3%N = Ok (h1, c) ∧
    Vector_binary o_plus a (Leaf b) = Resolved e ∧
    assign_expression h1 c e = Ok (h2, c, n) ∧ holds h2 c [11; 22; 33]%Z ∧
    compound_assign o_plus_eq h2 c (Leaf a) = Ok (h3, c, m) ∧ holds h3 c [12; 24; 36]%Z.
Proof.
  intros Ha Hb.
  destruct (Vector_size_holds h 3%N) as (h1 & c & Hctor & Hc & Hcv & Hlen1 & Hfr1); [done|].
  destruct (holds_block h a _ Ha) as (ba & Hda & Hlta).
  destruct (holds_block h b _ Hb) as (bb & Hdb & Hltb).
  assert (Hdc : m_data c = At (length h) 0) by (by subst c).
  assert (Hsc : m_size c = 3%N) by (by subst c).
  clear Hcv.
  assert (Ha1 : holds h1 a [1; 2; 3]%Z).
  { eapply holds_frame; [done|]. intros b' Hd. apply Hfr1. congruence. }
  assert (Hb1 : holds h1 b [10; 20; 30]%Z).
  { eapply holds_frame; [done|]. intros b' Hd. apply Hfr1. congruence. }
  set (e := Node (Leaf a) ADD (Leaf b)).
  destruct (assign_elements_written h1 c e) as (bc & buf & h2 & Hdc1 & Hbc & Hrun & Hw).
  { by eapply holds_well_formed. }
  { intros v Hv. apply elem_of_cons in Hv as [->|Hv];
      [|apply list_elem_of_singleton in Hv as ->].
    - split; [by eapply holds_well_formed|].
      pose proof (holds_capacity _ _ _ Ha1) as Hcap. simpl in Hcap. lia.
    - split; [by eapply holds_well_formed|].
      pose proof (holds_capacity _ _ _ Hb1) as Hcap. simpl in Hcap. lia. }
  assert (Hc2 : holds h2 c [11; 22; 33]%Z).
  { pose proof Hc as Hc'.
    apply holds_inv in Hc' as (bc' & buf' & Hd' & Hb' & Hl' & Hn' & _ & Hs' & Hcap').
    assert (bc' = bc) as -> by congruence. assert (buf' = buf) as -> by congruence.
    eapply (written_holds h1 c bc buf); try done.
    - rewrite Hsc in Hw. exact Hw.
    - intros j x Hj.
      destruct j as [|[|[|j]]]; simpl in Hj; try done; injection Hj as <-;
        unfold e; erewrite (index_containers h1 a b); try done; by vm_compute. }
  assert (Ha2 : holds h2 a [1; 2; 3]%Z).
  { eapply holds_frame; [done|]. intros b' Hd. destruct Hw as (_ & Hother & _).
    apply Hother. assert (b' = ba) by congruence. assert (bc = length h) by congruence. lia. }
  destruct (compound_assign_written o_plus_eq h2 c (Leaf a))
    as (bc' & buf2 & h3 & Hdc' & Hbc' & Hrun' & Hw').
  { by eapply holds_well_formed. }
  { intros v Hv. apply list_elem_of_singleton in Hv as ->.
    split; [by eapply holds_well_formed|].
    pose proof (holds_capacity _ _ _ Ha2) as Hcap. simpl in Hcap. lia. }
  exists h1, c, e, h2, (N.to_nat (m_size c) * nodes e)%nat,
    h3, (N.to_nat (m_size c) * nodes (Leaf a))%nat.
  split; [done|]. split; [done|].
  split; [unfold assign_expression; by rewrite Hrun|].
  split; [done|]. split; [done|].
  pose proof Hc2 as Hc'.
  apply holds_inv in Hc' as (bc'' & buf' & Hd' & Hb' & Hl' & Hn' & _ & Hs' & Hcap').
  assert (bc'' = bc') as -> by congruence. assert (buf' = buf2) as -> by congruence.
  eapply (written_holds h2 c bc' buf2); try done.
  - rewrite Hsc in Hw'. exact Hw'.
  - intros j x Hj. unfold compound_element. cbn [index].
    destruct j as [|[|[|j]]]; simpl in Hj; try done; injection Hj as <-.
    + pose proof (holds_subscript h2 a _ 0 _ Ha2 eq_refl) as Hra.
      pose proof (holds_subscript h2 c _ 0 _ Hc2 eq_refl) as Hrc.
      unfold subscript in Hra, Hrc. rewrite Hra, Hrc. by vm_compute.
    + pose proof (holds_subscript h2 a _ 1 _ Ha2 eq_refl) as Hra.
      pose proof (holds_subscript h2 c _ 1 _ Hc2 eq_refl) as Hrc.
      unfold subscript in Hra, Hrc. rewrite Hra, Hrc. by vm_compute.
    + pose proof (holds_subscript h2 a _ 2 _ Ha2 eq_refl) as Hra.
      pose proof (holds_subscript h2 c _ 2 _ Hc2 eq_refl) as Hrc.
      unfold subscript in Hra, Hrc. rewrite Hra, Hrc. by vm_compute.
Qed.

Lemma sum_then_add_assign_witness :
  ∃ h1 c e h2 n h3 m,
    Vector_size ab_store 3%N = Ok (h1, c) ∧
    Vector_binary o_plus vec_a (Leaf vec_b) = Resolved e ∧
    assign_expression h1 c e = Ok (h2, c, n) ∧ holds h2 c [11; 22; 33]%Z ∧
    compound_assign o_plus_eq h2 c (Leaf vec_a) = Ok (h3, c, m) ∧
    holds h3 c [12; 24; 36]%Z.
Proof.
  apply (sum_then_add_assign ab_store vec_a vec_b);
    unfold holds, well_formed; simpl; repeat split; lia.
Defined.

(** C2.  The binary forms [a | b] and [a & b] of a container: [Vector]
    declares no [operator |] (only [operator |=]), so [a | b] has no match;
    it declares two [operator &] templates with the same parameter, one
    returning a [LAND] node and one a [LOR] node, so [a & b] is ambiguous.
    Neither expression yields a node, while the specification pairs [|] with
    bitwise-or and [&] with bitwise-and.  The logical [&&] and [||] have no
    member template in [Vector] either. *)
Theorem bitwise_or_and_forms (a : Vector) (re : expr) :
  Vector_binary o_pipe a re = NoMatch ∧
  Vector_binary o_amp a re = Ambiguous ∧
  candidates o_pipe = [] ∧
  candidates o_amp = [LAND; LOR] ∧
  In o_pipe_eq Vector_compound_members ∧
  spec_matching_tag o_pipe = LOR ∧ spec_matching_tag o_amp = LAND ∧
  overload o_ampamp = NoMatch ∧ overload o_pipepipe = NoMatch.
Proof. repeat split; try reflexivity. simpl. tauto. Qed.

(** C8.  [x] constructed from the literal list 1,2,3 has length 6: its first
    three slots are never written and the values sit at indices 3..5.
    Move-constructing [y] from [x] copies that: [y.size()] is 6 and [y[0]] is
    indeterminate.  [x] is left with length 0 and a null array, and its
    destructor runs without fault. *)
Theorem list_constructor_then_move :
  ∃ h1 x h2 y x',
    Vector_list [] [1; 2; 3]%Z = Ok (h1, x) ∧ size x = 6%N ∧
    Vector_move h1 x = Ok (h2, y, x') ∧
    size y = 6%N ∧
    elements h2 y = [Indet; Indet; Indet; Val 1; Val 2; Val 3]%Z ∧
    subscript h2 y 0%N = Ok Indet ∧
    size x' = 0%N ∧ m_data x' = Null ∧ Vector_destroy h2 x' = Ok h2.
Proof. eexists _, _, _, _, _. repeat split. Qed.

(** ** The theorems at concrete inputs *)

Lemma assign_expression_frame_witness :
  ∃ h' c' n,
    assign_expression abc_store vec_c (Node (Leaf vec_a) ADD (Leaf vec_b)) = Ok (h', c', n) ∧
    size c' = size vec_c ∧ capacity c' = capacity vec_c ∧ m_data c' = m_data vec_c ∧
    (∀ i, (N.of_nat i < size vec_c)%N →
       ∃ s, index abc_store (Node (Leaf vec_a) ADD (Leaf vec_b)) (N.of_nat i) =
              Ok (s, nodes (Node (Leaf vec_a) ADD (Leaf vec_b))) ∧
            slot_at h' c' i = Some s) ∧
    (∀ i, (size vec_c ≤ N.of_nat i)%N → slot_at h' c' i = slot_at abc_store vec_c i) ∧
    length h' = length abc_store ∧
    (∀ b, m_data vec_c ≠ At b 0 → h' !! b = abc_store !! b) ∧
    n = (N.to_nat (size vec_c) * nodes (Node (Leaf vec_a) ADD (Leaf vec_b)))%nat ∧
    (size vec_c = 0%N → h' = abc_store).
Proof.
  apply (assign_expression_frame abc_store vec_c (Node (Leaf vec_a) ADD (Leaf vec_b))).
  - unfold well_formed; simpl; repeat split; lia.
  - intros v Hv. apply elem_of_cons in Hv as [->|Hv];
      [|apply list_elem_of_singleton in Hv as ->];
      unfold well_formed, size; simpl; repeat split; lia.
Defined.

Lemma at_checked_witness :
  at_ ab_store vec_b 5%N = Throw out_of_range ∧ at_ ab_store vec_b 2%N = Ok (Val 30%Z).
Proof.
  apply (proj2 (proj2 (at_checked ab_store vec_b 0%N)) 10%Z 20%Z 30%Z).
  unfold holds, well_formed; simpl; repeat split; lia.
Defined.

Lemma push_back_sequence_witness :
  ∃ h0 v0 h' v', Vector_default [] = Ok (h0, v0) ∧ size v0 = 0%N ∧
    push_all h0 v0 [1; 2; 3; 4]%Z = Ok (h', v') ∧
    size v' = N.of_nat (length [1; 2; 3; 4]%Z) ∧
    (∀ i x, [1; 2; 3; 4]%Z !! i = Some x → subscript h' v' (N.of_nat i) = Ok (Val x)) ∧
    (∀ i, size v' = capacity v' → (N.of_nat (length [1; 2; 3; 4]%Z) < 2 ^ 63)%N →
       push_back h' v' (Elem (ptr_add (m_data v') i)) = UB UseAfterFree) ∧
    (∀ i x, (size v' < capacity v')%N → (N.of_nat (length [1; 2; 3; 4]%Z) < 2 ^ 63)%N →
       [1; 2; 3; 4]%Z !! i = Some x →
       ∃ h'' v'', push_back h' v' (Elem (ptr_add (m_data v') (N.of_nat i))) = Ok (h'', v'') ∧
         size v'' = N.of_nat (S (length [1; 2; 3; 4]%Z)) ∧
         subscript h'' v'' (N.of_nat (length [1; 2; 3; 4]%Z)) = Ok (Val x)).
Proof. apply (push_back_sequence [] [1; 2; 3; 4]%Z). simpl. lia. Defined.

Lemma push_back_zero_capacity_witness :
  ∃ h1 v1, grow_if_full zero_store vec_zero = Ok (h1, v1) ∧ capacity v1 = 0%N ∧
    push_back zero_store vec_zero (Temp 7%Z) = UB OutOfBounds ∧
    (∀ a, ∃ f, push_back zero_store vec_zero a = UB f).
Proof.
  apply (push_back_zero_capacity zero_store vec_zero 7%Z).
  - unfold well_formed; simpl; repeat split; lia.
  - reflexivity.
Defined.

Lemma insert_when_full_witness :
  ∃ f, insert full_store vec_full 1%N (Temp 9%Z) = UB f ∧
    ((capacity vec_full < 2 ^ 63)%N → f = UseAfterFree).
Proof.
  apply (insert_when_full full_store vec_full 1%N (Temp 9%Z)).
  - unfold well_formed; simpl; repeat split; lia.
  - reflexivity.
Defined.

Lemma node_index_witness :
  index ab_store (Node (Leaf vec_a) ADD (Leaf vec_b)) 1%N = Ok (Val 22%Z, 1%nat).
Proof.
  refine (proj1 (node_index ab_store (Leaf vec_a) ADD (Leaf vec_b) 1%N)
            (Val 2%Z) O (Val 20%Z) O _ _); reflexivity.
Defined.

Lemma insert_erase_roundtrip_witness :
  ∃ h1 v1 p1 h2 v2 p2, insert ab_store vec_a 1%N (Elem (At 0 2%N)) = Ok (h1, v1, p1) ∧
    erase h1 v1 1%N = Ok (h2, v2, p2) ∧ holds h2 v2 [1; 2; 3]%Z ∧
    size v2 = size vec_a ∧ capacity v2 = capacity vec_a.
Proof.
  apply (insert_erase_roundtrip ab_store vec_a [1; 2; 3]%Z 1%N (Elem (At 0 2%N))).
  - unfold holds, well_formed; simpl; repeat split; lia.
  - reflexivity.
  - simpl. lia.
  - by eexists.
Defined.

Lemma Vector_list_doubles_witness :
  ∃ h' v, Vector_list [] [1; 2; 3]%Z = Ok (h', v) ∧
    size v = (2 * N.of_nat (length [1; 2; 3]%Z))%N ∧
    capacity v = (2 * N.of_nat (length [1; 2; 3]%Z))%N ∧
    elements h' v = replicate (length [1; 2; 3]%Z) Indet ++ (Val <$> [1; 2; 3]%Z).
Proof. apply (Vector_list_doubles [] [1; 2; 3]%Z). reflexivity. Defined.

Lemma unique_operator_elementwise_witness :
  LT = spec_matching_tag o_lt ∧
  Vector_binary o_lt vec_a (Leaf vec_b) = Resolved (Node (Leaf vec_a) LT (Leaf vec_b)) ∧
  index ab_store (Node (Leaf vec_a) LT (Leaf vec_b)) (N.of_nat 2) =
    Ok (Val (binop o_lt 3%Z 30%Z), 1%nat).
Proof.
  apply (unique_operator_elementwise ab_store vec_a vec_b [1; 2; 3]%Z [10; 20; 30]%Z
           o_lt LT 2 3%Z 30%Z); try reflexivity;
    unfold holds, well_formed; simpl; repeat split; lia.
Defined.

(** [a - (b + b)] at index 0, with [a[0] = 1] and [b[0] = 10]: 20 - 1. *)
Lemma right_node_operands_swapped_witness :
  index ab_store (Node (Leaf vec_a) SUB (Node (Leaf vec_b) ADD (Leaf vec_b))) 0%N =
    Ok (Val (binop o_minus 20%Z 1%Z), 2%nat).
Proof.
  refine (right_node_operands_swapped ab_store vec_a (Leaf vec_b) ADD (Leaf vec_b)
            SUB o_minus o_minus_eq 0%N 1%Z 20%Z 1 _ _ _); reflexivity.
Defined.

(** [(a + b) * b] at index 0: the node is an [ADD] node, 1 + 10 + 10. *)
Lemma chained_operator_keeps_tag_witness :
  index ab_store
    (BinaryExpression_operator (binary_token o_star) (Leaf vec_a) ADD (Leaf vec_b) (Leaf vec_b))
    0%N = Ok (Val 21%Z, 2%nat).
Proof.
  refine (chained_operator_keeps_tag ab_store (binary_token o_star) (Leaf vec_a) ADD
            (Leaf vec_b) (Leaf vec_b) 0%N (Val 11%Z) 1 (Val 10%Z) 0 _ _); reflexivity.
Defined.

(** * The remaining members of [Vector] *)

Ltac holds_of_insert :=
  lazymatch goal with
  | |- holds (<[?b := Live ?B]> _) _ _ =>
      eapply (holds_intro _ _ _ b B); cbn [m_data m_size m_reservedSize];
      [ done | apply list_lookup_insert_eq; by eapply lookup_lt_Some | .. ]
  end.

Section MoreFacts.
Context {T : Type} `{Arithmetic T} `{IsArithmetic T}.
Implicit Types (h : heap T) (v : Vector) (buf : list (slot T)).

(** *** Reallocation and loops of stores *)

Lemma reallocate_holds h v l (cap : N) :
  holds h v l → (m_size v ≤ cap)%N → (cap < 2 ^ 64)%N →
  ∃ h' b, reallocate h (mkVector cap (m_size v) (m_data v))
            = Ok (h', mkVector cap (m_size v) (At (length h) 0)) ∧
    holds h' (mkVector cap (m_size v) (At (length h) 0)) l ∧
    m_data v = At b 0 ∧ h' !! b = Some Freed ∧ length h' = S (length h) ∧
    (∀ b', b' ≠ b → (b' < length h)%nat → h' !! b' = h !! b').
Proof.
  intros Hh Hle Hcap.
  apply holds_inv in Hh as (b & buf & Hd & Hb & Hl & Hn & Ht & Hs & Hc).
  assert (Hlt : (b < length h)%nat) by (by eapply lookup_lt_Some).
  rewrite Hd, (reallocate_live h b buf) by (done || lia).
  eexists _, b. split; [done|]. split; [|split; [done|split; [|split]]].
  - eapply (holds_intro _ _ _ (length h)
              (take (N.to_nat (m_size v)) buf ++
               replicate (N.to_nat cap - N.to_nat (m_size v)) Indet));
      cbn [m_data m_size m_reservedSize]; try done.
    + rewrite list_lookup_insert_ne by lia. by apply list_lookup_middle.
    + list_length.
    + rewrite Hn, Nat2N.id. rewrite take_app_le by list_length.
      rewrite take_take, Nat.min_id. done.
  - apply list_lookup_insert_eq. rewrite length_app. simpl. lia.
  - rewrite length_insert, length_app. simpl. lia.
  - intros b' Hne Hb'. rewrite list_lookup_insert_ne by done. by apply lookup_app_l.
Qed.

Lemma load_offset h b buf (off i : N) s :
  h !! b = Some (Live buf) → buf !! N.to_nat (off + i) = Some s →
  load h (At b off) i = Ok s.
Proof. intros Hb Hi. unfold load. by rewrite Hb, Hi. Qed.

Lemma stores_live (x : T) b (off : N) : ∀ (k i : nat) h cur,
  h !! b = Some (Live cur) → (N.to_nat off + i + k ≤ length cur)%nat →
  for_loop k (N.of_nat i) (λ i h, store h (At b off) i (Val x)) h =
    Ok (<[b := Live (take (N.to_nat off + i) cur ++ replicate k (Val x)
                     ++ drop (N.to_nat off + i + k) cur)]> h).
Proof.
  induction k as [|k IH]; intros i h cur Hb Hfit.
  - simpl. rewrite Nat.add_0_r, take_drop. by rewrite list_insert_id.
  - cbn [for_loop mbind result_bind].
    rewrite (store_offset h b cur) by (done || lia). cbn [mbind result_bind].
    rewrite <- Nat2N.inj_succ.
    replace (N.to_nat (off + N.of_nat i)) with (N.to_nat off + i)%nat by lia.
    erewrite IH; [| by apply list_lookup_insert_eq; eapply lookup_lt_Some
                  | rewrite length_insert; lia].
    rewrite list_insert_insert_eq. do 3 f_equal.
    replace (N.to_nat off + S i)%nat with (S (N.to_nat off + i)) by lia.
    rewrite (take_S_r _ _ (Val x)) by (apply list_lookup_insert_eq; lia).
    rewrite take_insert_ge by lia. rewrite drop_insert_lt by lia.
    rewrite <- app_assoc. simpl.
    by replace (N.to_nat off + i + S k)%nat with (S (N.to_nat off + i) + k)%nat by lia.
Qed.

Lemma fill_argument_live (a : argument T) x b (off : N) : ∀ (k i : nat) h cur,
  h !! b = Some (Live cur) → (N.to_nat off + i + k ≤ length cur)%nat →
  read_argument h a = Ok (Val x) →
  fill_argument h (At b off) (N.of_nat i) k a =
    Ok (<[b := Live (take (N.to_nat off + i) cur ++ replicate k (Val x)
                     ++ drop (N.to_nat off + i + k) cur)]> h).
Proof.
  unfold fill_argument.
  induction k as [|k IH]; intros i h cur Hb Hfit Hread.
  - simpl. rewrite Nat.add_0_r, take_drop. by rewrite list_insert_id.
  - cbn [for_loop mbind result_bind]. rewrite Hread. cbn [mbind result_bind].
    rewrite (store_offset h b cur) by (done || lia). cbn [mbind result_bind].
    rewrite <- Nat2N.inj_succ.
    replace (N.to_nat (off + N.of_nat i)) with (N.to_nat off + i)%nat by lia.
    erewrite IH; [| by apply list_lookup_insert_eq; eapply lookup_lt_Some
                  | rewrite length_insert; lia
                  | by apply read_argument_stored].
    rewrite list_insert_insert_eq. do 3 f_equal.
    replace (N.to_nat off + S i)%nat with (S (N.to_nat off + i)) by lia.
    rewrite (take_S_r _ _ (Val x)) by (apply list_lookup_insert_eq; lia).
    rewrite take_insert_ge by lia. rewrite drop_insert_lt by lia.
    rewrite <- app_assoc. simpl.
    by replace (N.to_nat off + i + S k)%nat with (S (N.to_nat off + i) + k)%nat by lia.
Qed.

Lemma fill_argument_unreadable h p (first : N) (k : nat) (a : argument T) f :
  read_argument h a = UB f → fill_argument h p first (S k) a = UB f.
Proof. intros Hr. unfold fill_argument. cbn [for_loop mbind result_bind]. by rewrite Hr. Qed.

Lemma read_argument_frame h h' (a : argument T) x b :
  read_argument h a = Ok (Val x) → (∀ off, a ≠ Elem (At b off)) →
  (∀ b', b' ≠ b → (b' < length h)%nat → h' !! b' = h !! b') →
  read_argument h' a = Ok (Val x).
Proof.
  intros Hr Hne Hsame. destruct a as [y|[| |b' off]]; try done.
  simpl in *. unfold load in *.
  destruct (h !! b') as [cl|] eqn:Hb'; [|done].
  rewrite Hsame, Hb'; [done | intros ->; by eapply Hne | by eapply lookup_lt_Some].
Qed.

Lemma read_argument_freed h v (a : argument T) b :
  m_data v = At b 0 → refers_to v a = true → h !! b = Some Freed →
  read_argument h a = UB UseAfterFree.
Proof.
  intros Hd Hr Hf. destruct a as [y|[| |b' off]]; try done.
  simpl in Hr. rewrite Hd in Hr. simpl in Hr. apply bool_decide_eq_true in Hr as ->.
  simpl. unfold load. by rewrite Hf.
Qed.

Lemma fill_argument_holds h v (n : N) (a : argument T) x :
  well_formed h v → (n ≤ m_reservedSize v)%N → read_argument h a = Ok (Val x) →
  ∃ h', fill_argument h (m_data v) 0 (N.to_nat n) a = Ok h' ∧
    holds h' (mkVector (m_reservedSize v) n (m_data v)) (replicate (N.to_nat n) x).
Proof.
  intros Hwf Hn Hread. apply well_formed_inv in Hwf as (b & buf & Hd & Hb & Hl & Hs & Hc).
  rewrite Hd.
  pose proof (fill_argument_live a x b 0 (N.to_nat n) 0 h buf Hb ltac:(simpl; lia) Hread)
    as Hrun.
  change (N.of_nat 0) with 0%N in Hrun.
  cbn [N.to_nat Nat.add take app] in Hrun. rewrite Hrun.
  eexists. split; [done|].
  eapply (holds_intro _ _ _ b (replicate (N.to_nat n) (Val x) ++ drop (N.to_nat n) buf));
    cbn [m_data m_size m_reservedSize]; try done.
  - apply list_lookup_insert_eq. by eapply lookup_lt_Some.
  - list_length.
  - list_length.
  - rewrite length_replicate, fmap_replicate. simpl.
    apply take_app_length'. list_length.
Qed.

Lemma store_from_live b (off : N) (l : list T) : ∀ (i : nat) h cur,
  h !! b = Some (Live cur) → (N.to_nat off + i + length l ≤ length cur)%nat →
  store_from h (At b off) (N.of_nat i) l =
    Ok (<[b := Live (take (N.to_nat off + i) cur ++ (Val <$> l)
                     ++ drop (N.to_nat off + i + length l) cur)]> h).
Proof.
  induction l as [|x l IH]; intros i h cur Hb Hfit.
  - simpl. rewrite Nat.add_0_r, take_drop. by rewrite list_insert_id.
  - cbn [store_from mbind result_bind]. simpl in Hfit.
    rewrite (store_offset h b cur) by (done || lia). cbn [mbind result_bind].
    rewrite <- Nat2N.inj_succ.
    replace (N.to_nat (off + N.of_nat i)) with (N.to_nat off + i)%nat by lia.
    erewrite IH; [| by apply list_lookup_insert_eq; eapply lookup_lt_Some
                  | rewrite length_insert; lia].
    rewrite list_insert_insert_eq. do 3 f_equal.
    replace (N.to_nat off + S i)%nat with (S (N.to_nat off + i)) by lia.
    rewrite (take_S_r _ _ (Val x)) by (apply list_lookup_insert_eq; lia).
    rewrite take_insert_ge by lia. rewrite drop_insert_lt by lia.
    rewrite <- app_assoc. simpl.
    by replace (N.to_nat off + i + S (length l))%nat
      with (S (N.to_nat off + i) + length l)%nat by lia.
Qed.

Lemma copy_elements_live b bs (soff : N) sbuf : ∀ (k i : nat) h cur,
  b ≠ bs → h !! b = Some (Live cur) → h !! bs = Some (Live sbuf) →
  (i + k ≤ length cur)%nat → (N.to_nat soff + i + k ≤ length sbuf)%nat →
  for_loop k (N.of_nat i) (λ i h, s ← load h (At bs soff) i; store h (At b 0) i s) h =
    Ok (<[b := Live (take i cur ++ take k (drop (N.to_nat soff + i) sbuf)
                     ++ drop (i + k) cur)]> h).
Proof.
  induction k as [|k IH]; intros i h cur Hne Hb Hbs Hfit Hsrc.
  - simpl. rewrite Nat.add_0_r, take_drop. by rewrite list_insert_id.
  - cbn [for_loop mbind result_bind].
    destruct (lookup_lt_is_Some_2 sbuf (N.to_nat soff + i)) as [s Hs]; [lia|].
    rewrite (load_offset h bs sbuf soff (N.of_nat i) s)
      by (done || by replace (N.to_nat (soff + N.of_nat i)) with (N.to_nat soff + i)%nat by lia).
    cbn [mbind result_bind].
    rewrite (store_live h b cur) by (done || lia). cbn [mbind result_bind].
    rewrite <- Nat2N.inj_succ, Nat2N.id.
    erewrite IH; [| done | by apply list_lookup_insert_eq; eapply lookup_lt_Some
                  | by rewrite list_lookup_insert_ne | rewrite length_insert; lia | lia].
    rewrite list_insert_insert_eq. do 3 f_equal.
    rewrite (take_S_r _ _ s) by (apply list_lookup_insert_eq; lia).
    rewrite take_insert_ge by lia. rewrite drop_insert_lt by lia.
    rewrite <- app_assoc. simpl.
    rewrite (drop_S sbuf s (N.to_nat soff + i)) by done. simpl.
    replace (N.to_nat soff + S i)%nat with (S (N.to_nat soff + i)) by lia.
    by replace (i + S k)%nat with (S (i + k)) by lia.
Qed.


Lemma fill_holds h v (n : N) x :
  well_formed h v → (n ≤ m_reservedSize v)%N →
  ∃ h' b, fill h (m_data v) n x = Ok h' ∧ m_data v = At b 0 ∧
    holds h' (mkVector (m_reservedSize v) n (m_data v)) (replicate (N.to_nat n) x) ∧
    length h' = length h ∧ (∀ b', b' ≠ b → h' !! b' = h !! b').
Proof.
  intros Hwf Hn. apply well_formed_inv in Hwf as (b & buf & Hd & Hb & Hl & Hs & Hc).
  unfold fill. rewrite Hd.
  pose proof (stores_live x b 0 (N.to_nat n) 0 h buf Hb ltac:(simpl; lia)) as Hrun.
  change (N.of_nat 0) with 0%N in Hrun.
  cbn [N.to_nat Nat.add take app] in Hrun. rewrite Hrun.
  eexists _, b. split; [done|]. split; [done|]. split; [|split].
  - eapply (holds_intro _ _ _ b (replicate (N.to_nat n) (Val x) ++ drop (N.to_nat n) buf));
      cbn [m_data m_size m_reservedSize]; try done.
    + apply list_lookup_insert_eq. by eapply lookup_lt_Some.
    + list_length.
    + list_length.
    + rewrite length_replicate, fmap_replicate. simpl.
      apply take_app_length'. list_length.
  - by rewrite length_insert.
  - intros b' Hne. by rewrite list_lookup_insert_ne.
Qed.

Lemma new_array_lookup h (n : N) b :
  (b < length h)%nat → (new_array h n).1 !! b = h !! b.
Proof. intros Hb. unfold new_array. simpl. by apply lookup_app_l. Qed.

(** *** Constructors *)

(** X6.  [Vector(n, x)] allocates one new array of capacity [2n] and holds
    [n] copies of [x]; the arrays already in the free store are untouched.
    [2n] must fit [std::size_t]. *)
Theorem Vector_fill_holds h (n : N) x :
  (2 * n < 2 ^ 64)%N →
  ∃ h' v, Vector_fill h n x = Ok (h', v) ∧ holds h' v (replicate (N.to_nat n) x) ∧
    size v = n ∧ capacity v = (2 * n)%N ∧
    (∀ b, (b < length h)%nat → h' !! b = h !! b).
Proof.
  intros Hn. unfold Vector_fill, new_array. rewrite (wrap_small (2 * n)) by done.
  set (buf := replicate (N.to_nat (2 * n)) (@Indet T)).
  set (v := mkVector (2 * n)%N n (At (length h) 0)).
  destruct (fill_holds (h ++ [Live buf]) v n x) as (h' & b & Hrun & Hd & Hh & Hlen & Hother).
  { eapply (well_formed_intro _ _ (length h) buf); try done; simpl; try lia.
    - by apply list_lookup_middle.
    - unfold buf. by rewrite length_replicate. }
  { simpl. lia. }
  simpl in Hrun. rewrite Hrun. cbn [mbind result_bind].
  exists h', v. split; [done|]. split; [done|]. split; [done|]. split; [done|].
  intros b' Hb'. simpl in Hd. injection Hd as <-.
  rewrite Hother by lia. by apply lookup_app_l.
Qed.

Lemma copy_into_fresh h src l (cap : N) :
  holds h src l → (m_size src ≤ cap)%N → (cap < 2 ^ 64)%N →
  ∃ h' bs, copy_elements (h ++ [Live (replicate (N.to_nat cap) Indet)])
             (At (length h) 0) (m_data src) (m_size src) = Ok h' ∧
    holds h' (mkVector cap (m_size src) (At (length h) 0)) l ∧
    m_data src = At bs 0 ∧ length h' = S (length h) ∧
    (∀ b, (b < length h)%nat → h' !! b = h !! b).
Proof.
  intros Hh Hle Hcap.
  apply holds_inv in Hh as (bs & sbuf & Hd & Hb & Hl & Hn & Ht & Hs & Hc).
  assert (Hlt : (bs < length h)%nat) by (by eapply lookup_lt_Some).
  set (buf := replicate (N.to_nat cap) (@Indet T)).
  unfold copy_elements. rewrite Hd.
  pose proof (copy_elements_live (length h) bs 0 sbuf (N.to_nat (m_size src)) 0
                (h ++ [Live buf]) buf) as Hrun.
  change (N.of_nat 0) with 0%N in Hrun.
  cbn [N.to_nat Nat.add take app] in Hrun. rewrite Hrun.
  - eexists _, bs. split; [done|]. split; [|split; [done|split]].
    + eapply (holds_intro _ _ _ (length h)
                (take (N.to_nat (m_size src)) sbuf ++ drop (N.to_nat (m_size src)) buf));
        cbn [m_data m_size m_reservedSize]; try done.
      * apply list_lookup_insert_eq. rewrite length_app. simpl. lia.
      * unfold buf. list_length.
      * rewrite Hn, Nat2N.id, Ht. apply take_app_length'. by rewrite length_fmap.
    + rewrite length_insert, length_app. simpl. lia.
    + intros b Hlb. rewrite list_lookup_insert_ne by lia. by apply lookup_app_l.
  - lia.
  - by apply list_lookup_middle.
  - by rewrite lookup_app_l.
  - unfold buf. rewrite length_replicate. lia.
  - lia.
Qed.

(** X8.  The copy constructor yields a container with the same elements and
    the same capacity in an array of its own: the source still holds its
    elements, and after the source is destroyed the copy still holds them. *)
Theorem Vector_copy_independent h src l :
  holds h src l →
  ∃ h' v h'', Vector_copy h src = Ok (h', v) ∧
    holds h' v l ∧ holds h' src l ∧
    capacity v = capacity src ∧ m_data v ≠ m_data src ∧
    Vector_destroy h' src = Ok h'' ∧ holds h'' v l.
Proof.
  intros Hh. pose proof Hh as Hh0.
  apply holds_inv in Hh0 as (bs & sbuf & Hd & Hb & Hl & Hn & Ht & Hs & Hc).
  assert (Hlt : (bs < length h)%nat) by (by eapply lookup_lt_Some).
  destruct (copy_into_fresh h src l (m_reservedSize src) Hh Hs Hc)
    as (h' & bs' & Hrun & Hv & Hd' & Hlen & Hsame).
  unfold Vector_copy, new_array. rewrite Hrun. cbn [mbind result_bind].
  assert (Hsrc : holds h' src l).
  { eapply holds_frame; [done|]. intros b Hdb. apply Hsame. congruence. }
  assert (Hb' : h' !! bs = Some (Live sbuf)) by (by rewrite Hsame).
  eexists _, _, _. split; [done|]. split; [done|]. split; [done|]. split; [done|].
  split; [rewrite Hd; simpl; intros [= Heq]; lia|].
  unfold Vector_destroy. rewrite Hd, (delete_array_live h' bs sbuf) by done.
  split; [done|]. eapply holds_frame; [done|].
  intros b. simpl. intros [= <-]. rewrite list_lookup_insert_ne by lia. done.
Qed.

(** X9.  The move constructor copies the elements into a new array; the
    source is left with length 0 and a null array pointer, while the array
    it owned is still allocated, and the destructor of the source does not
    free it: that array is never released. *)
Theorem Vector_move_leaves_array h x l :
  holds h x l →
  ∃ h' y x' b buf, Vector_move h x = Ok (h', y, x') ∧
    holds h' y l ∧ capacity y = capacity x ∧
    size x' = 0%N ∧ m_data x' = Null ∧
    m_data x = At b 0 ∧ m_data y ≠ m_data x ∧ h' !! b = Some (Live buf) ∧
    Vector_destroy h' x' = Ok h'.
Proof.
  intros Hh. pose proof Hh as Hh0.
  apply holds_inv in Hh0 as (bs & sbuf & Hd & Hb & Hl & Hn & Ht & Hs & Hc).
  assert (Hlt : (bs < length h)%nat) by (by eapply lookup_lt_Some).
  destruct (copy_into_fresh h x l (m_reservedSize x) Hh Hs Hc)
    as (h' & bs' & Hrun & Hv & Hd' & Hlen & Hsame).
  unfold Vector_move, new_array. rewrite Hrun. cbn [mbind result_bind].
  eexists _, _, _, bs, sbuf. split; [done|]. split; [done|]. do 4 (split; [done|]).
  split; [rewrite Hd; simpl; intros [= Heq]; lia|].
  split; [by rewrite Hsame|]. done.
Qed.


Lemma ptr_diff_range bs (off n : N) :
  (n < 2 ^ 64)%N →
  (d ← ptr_diff (At bs (off + n)) (At bs off); Ok (to_size_t d)) = Ok n.
Proof.
  intros Hn. unfold ptr_diff. rewrite bool_decide_true by done. cbn [mbind result_bind].
  f_equal. unfold to_size_t.
  replace (Z.of_N (off + n) - Z.of_N off)%Z with (Z.of_N n) by lia.
  rewrite Z.mod_small by lia. lia.
Qed.

Lemma copy_range_holds h v l0 bs sbuf (off n : N) l :
  holds h v l0 → (n ≤ m_reservedSize v)%N →
  h !! bs = Some (Live sbuf) → m_data v ≠ At bs 0 →
  (N.to_nat off + N.to_nat n ≤ length sbuf)%nat →
  take (N.to_nat n) (drop (N.to_nat off) sbuf) = Val <$> l → length l = N.to_nat n →
  ∃ h', copy_elements h (m_data v) (At bs off) n = Ok h' ∧
    holds h' (mkVector (m_reservedSize v) n (m_data v)) l ∧
    h' !! bs = Some (Live sbuf).
Proof.
  intros Hh Hn Hbs Hne Hfit Hsrc Hlen.
  apply holds_inv in Hh as (b & buf & Hd & Hb & Hl & _ & _ & Hs & Hc).
  assert (b ≠ bs) by (intros ->; by rewrite Hd in Hne).
  unfold copy_elements. rewrite Hd.
  pose proof (copy_elements_live b bs off sbuf (N.to_nat n) 0 h buf) as Hrun.
  change (N.of_nat 0) with 0%N in Hrun.
  rewrite Nat.add_0_r in Hrun. cbn [Nat.add take app] in Hrun.
  rewrite Hrun by (done || lia).
  eexists. split; [done|]. split; [|by rewrite list_lookup_insert_ne].
  eapply (holds_intro _ _ _ b (take (N.to_nat n) (drop (N.to_nat off) sbuf)
                                ++ drop (N.to_nat n) buf));
    cbn [m_data m_size m_reservedSize]; try done.
  - apply list_lookup_insert_eq. by eapply lookup_lt_Some.
  - list_length.
  - lia.
  - rewrite Hsrc, Hlen. apply take_app_length'. rewrite length_fmap. lia.
Qed.

(** X7.  [Vector(first, last)] over a range of [n] initialised elements of a
    live array holds exactly those elements, with capacity [2n]; the source
    array is unchanged. *)
Theorem Vector_range_holds h bs sbuf (off n : N) l :
  h !! bs = Some (Live sbuf) → (N.to_nat off + N.to_nat n ≤ length sbuf)%nat →
  take (N.to_nat n) (drop (N.to_nat off) sbuf) = Val <$> l → length l = N.to_nat n →
  (2 * n < 2 ^ 64)%N →
  ∃ h' v, Vector_range h (At bs off) (At bs (off + n)) = Ok (h', v) ∧
    holds h' v l ∧ capacity v = (2 * n)%N ∧ h' !! bs = Some (Live sbuf).
Proof.
  intros Hbs Hfit Hsrc Hlen Hn.
  assert (Hlt : (bs < length h)%nat) by (by eapply lookup_lt_Some).
  unfold Vector_range.
  pose proof (ptr_diff_range bs off n ltac:(lia)) as Hd.
  destruct (ptr_diff (At bs (off + n)) (At bs off)) as [d| |];
    cbn [mbind result_bind] in Hd |- *; try done. injection Hd as ->.
  unfold new_array. rewrite (wrap_small (2 * n)) by done.
  set (buf := replicate (N.to_nat (2 * n)) (@Indet T)).
  set (v0 := mkVector (2 * n)%N 0%N (At (length h) 0)).
  assert (Hh0 : holds (h ++ [Live buf]) v0 []).
  { eapply (holds_intro _ _ _ (length h) buf); try done; simpl; try lia.
    - by apply list_lookup_middle.
    - unfold buf. by rewrite length_replicate. }
  assert (Hbs0 : (h ++ [Live buf]) !! bs = Some (Live sbuf)) by (by rewrite lookup_app_l).
  assert (Hne : m_data v0 ≠ At bs 0) by (simpl; intros [= Heq]; lia).
  destruct (copy_range_holds (h ++ [Live buf]) v0 [] bs sbuf off n l Hh0
              ltac:(simpl; lia) Hbs0 Hne Hfit Hsrc Hlen) as (h' & Hrun & Hh & Hkeep).
  simpl in Hrun. rewrite Hrun. cbn [mbind result_bind].
  eexists _, _. split; [done|]. split; [exact Hh|]. split; [done | exact Hkeep].
Qed.

(** *** Assignments *)

(** X10.  Copy assignment and move assignment from a container longer than
    the capacity of the receiver set [m_size] before [reallocate()], which
    then copies [m_size] elements out of the old, shorter array: a read past
    its end. *)
Theorem assign_copy_overread h v xi_other :
  well_formed h v → (capacity v < size xi_other)%N →
  assign_copy h v xi_other = UB OutOfBounds ∧ assign_move h v xi_other = UB OutOfBounds.
Proof.
  unfold capacity, size. intros Hwf Hlt.
  apply well_formed_inv in Hwf as (b & buf & Hd & Hb & Hl & Hs & Hc).
  assert (Hbl : (b < length h)%nat) by (by eapply lookup_lt_Some).
  assert (Hcopy : assign_copy h v xi_other = UB OutOfBounds).
  { unfold assign_copy. cbn [m_reservedSize m_size m_data].
    destruct (N.ltb_spec (m_reservedSize v) (m_size xi_other)) as [_|]; [|lia].
    unfold reallocate, new_array, memcpy, memmove, read_range.
    cbn [m_reservedSize m_size m_data]. rewrite Hd. cbn [same_block].
    rewrite bool_decide_false by lia. rewrite lookup_app_l, Hb by done.
    destruct (N.leb_spec (0 + m_size xi_other) (N.of_nat (length buf))); [lia | done]. }
  split; [done|]. unfold assign_move. by rewrite Hcopy.
Qed.

(** X11.  [assign(n, a)], where the reference [a] is bound to an object
    holding [x] (a temporary, or an element of any live array, also of the
    container itself).  When the capacity is below [n] and [a] is an element
    of the container itself, [reallocate()] releases the array before [a] is
    read: the call reads the freed array.  In every other case the container
    is left holding [n] copies of [x]; the capacity becomes [2n] when the old
    capacity is below [n] and is kept otherwise. *)
Theorem assign_fill_holds h v l (n : N) (a : argument T) x :
  holds h v l → (2 * n < 2 ^ 64)%N → read_argument h a = Ok (Val x) →
  if (capacity v <? n)%N && refers_to v a
  then assign_fill h v n a = UB UseAfterFree
  else ∃ h' v', assign_fill h v n a = Ok (h', v') ∧
         holds h' v' (replicate (N.to_nat n) x) ∧
         capacity v' = (if (capacity v <? n)%N then 2 * n else capacity v)%N.
Proof.
  unfold capacity. intros Hh Hn Hread. unfold assign_fill.
  destruct (N.ltb_spec (m_reservedSize v) n) as [Hgrow|Hroom]; cbn [andb].
  - rewrite (wrap_small (2 * n)) by done.
    destruct (reallocate_holds h v l (2 * n)%N Hh)
      as (h1 & b & -> & Hh1 & Hd & Hfreed & _ & Hother); [|done|].
    { destruct Hh as [Hwf _]. apply well_formed_inv in Hwf as (? & ? & _ & _ & _ & ? & _). lia. }
    cbn [mbind result_bind m_data m_reservedSize].
    destruct (refers_to v a) eqn:Hrefers.
    + destruct (N.to_nat n) as [|k] eqn:Hk; [lia|].
      rewrite (fill_argument_unreadable _ _ _ _ _ UseAfterFree); [done|].
      by apply (read_argument_freed _ v _ b).
    + destruct (fill_argument_holds h1 _ n a x (holds_well_formed _ _ _ Hh1))
        as (h' & Hrun & Hh'); [simpl; lia | |].
      { eapply read_argument_frame; [done | by apply (refers_to_other v) | done]. }
      simpl in Hrun. rewrite Hrun. cbn [mbind result_bind]. eauto.
  - cbn [mbind result_bind].
    destruct (fill_argument_holds h v n a x (holds_well_formed _ _ _ Hh))
      as (h' & Hrun & Hh'); [lia | done |].
    rewrite Hrun. cbn [mbind result_bind]. eauto.
Qed.

(** X12.  [assign(first, last)] over a range of [n] initialised elements of
    another live array leaves the container holding those elements; the
    capacity becomes [4n] when the old capacity is below [n] and is kept
    otherwise. *)
Theorem assign_range_holds h v l0 bs sbuf (off n : N) l :
  holds h v l0 → h !! bs = Some (Live sbuf) → m_data v ≠ At bs 0 →
  (N.to_nat off + N.to_nat n ≤ length sbuf)%nat →
  take (N.to_nat n) (drop (N.to_nat off) sbuf) = Val <$> l → length l = N.to_nat n →
  (4 * n < 2 ^ 64)%N →
  ∃ h' v', assign_range h v (At bs off) (At bs (off + n)) = Ok (h', v') ∧
    holds h' v' l ∧
    capacity v' = (if (capacity v <? n)%N then 4 * n else capacity v)%N.
Proof.
  unfold capacity. intros Hh Hbs Hne Hfit Hsrc Hlen Hn. unfold assign_range.
  pose proof (ptr_diff_range bs off n ltac:(lia)) as Hd.
  destruct (ptr_diff (At bs (off + n)) (At bs off)) as [d| |];
    cbn [mbind result_bind] in Hd |- *; try done. injection Hd as ->.
  assert (Hlt : (bs < length h)%nat) by (by eapply lookup_lt_Some).
  destruct (N.ltb_spec (m_reservedSize v) n) as [Hgrow|Hroom].
  - rewrite (wrap_small (n * 4)) by lia.
    destruct (reallocate_holds h v l0 (n * 4)%N Hh) as (h1 & b & -> & Hh1 & Hdv & _ & _ & Hother);
      [|lia|].
    { destruct Hh as [Hwf _]. apply well_formed_inv in Hwf as (? & ? & _ & _ & _ & ? & _). lia. }
    cbn [mbind result_bind m_data m_reservedSize].
    destruct (copy_range_holds h1 _ l0 bs sbuf off n l Hh1) as (h' & Hrun & Hh' & _);
      try done.
    + simpl. lia.
    + rewrite Hother; [done| |done]. intros ->. by rewrite Hdv in Hne.
    + simpl. intros [= Heq]. lia.
    + simpl in Hrun. rewrite Hrun. cbn [mbind result_bind].
      eexists _, _. split; [done|]. split; [done|]. simpl. lia.
  - cbn [mbind result_bind].
    destruct (copy_range_holds h v l0 bs sbuf off n l Hh) as (h' & Hrun & Hh' & _);
      try done.
    rewrite Hrun. cbn [mbind result_bind]. eauto.
Qed.

(** X13.  [assign] from a literal list writes the items at indices 0, 1, ...
    but leaves the length as it was: the container stays well formed, index
    [i] holds item [i], and [size()] is unchanged. *)
Theorem assign_items_keeps_length h v l (items : list T) :
  holds h v l → (4 * N.of_nat (length items) < 2 ^ 64)%N →
  ∃ h' v', assign_items h v items = Ok (h', v') ∧
    size v' = size v ∧ well_formed h' v' ∧
    (∀ i x, items !! i = Some x → subscript h' v' (N.of_nat i) = Ok (Val x)).
Proof.
  unfold size. intros Hh Hn. unfold assign_items.
  rewrite (wrap_small (N.of_nat (length items))) by lia.
  assert (Hfinish : ∀ h1 v1, holds h1 v1 l → (N.of_nat (length items) ≤ m_reservedSize v1)%N →
    ∃ h', ('(h2, _) ← store_items h1 (m_data v1) 0%N items; Ok (h2, v1)) = Ok (h', v1) ∧
      well_formed h' v1 ∧
      (∀ i x, items !! i = Some x → subscript h' v1 (N.of_nat i) = Ok (Val x))).
  { intros h1 v1 Hh1 Hfit.
    apply holds_inv in Hh1 as (b & buf & Hd & Hb & Hl & Hsz & _ & Hs & Hc).
    rewrite Hd, (store_items_live items h1 b buf 0) by (done || lia).
    cbn [mbind result_bind]. eexists. split; [done|].
    set (buf' := take (N.to_nat 0) buf ++ (Val <$> items)
                 ++ drop (N.to_nat 0 + length items) buf).
    assert (Hb' : <[b := Live buf']> h1 !! b = Some (Live buf')).
    { apply list_lookup_insert_eq. by eapply lookup_lt_Some. }
    split.
    - eapply (well_formed_intro _ _ b buf'); try done.
      unfold buf'. change (N.to_nat 0) with 0%nat. list_length.
    - intros i x Hi. unfold subscript. rewrite Hd.
      eapply load_live; [exact Hb'|].
      rewrite Nat2N.id. unfold buf'. change (N.to_nat 0) with 0%nat. simpl.
      rewrite lookup_app_l by (rewrite length_fmap; by eapply lookup_lt_Some).
      by rewrite list_lookup_fmap, Hi. }
  destruct (N.ltb_spec (m_reservedSize v) (N.of_nat (length items))) as [Hgrow|Hroom].
  - rewrite (wrap_small (N.of_nat (length items) * 4)) by lia.
    destruct (reallocate_holds h v l (N.of_nat (length items) * 4)%N Hh)
      as (h1 & b & -> & Hh1 & _); [|lia|].
    { destruct Hh as [Hwf _]. apply well_formed_inv in Hwf as (? & ? & _ & _ & _ & ? & _). lia. }
    cbn [mbind result_bind].
    destruct (Hfinish _ _ Hh1) as (h' & -> & Hwf' & Hval); [simpl; lia|].
    eexists _, _. split; [done|]. split; [done|]. split; [exact Hwf' | exact Hval].
  - cbn [mbind result_bind].
    destruct (Hfinish _ _ Hh Hroom) as (h' & -> & Hwf' & Hval).
    eexists _, _. split; [done|]. split; [done|]. split; [exact Hwf' | exact Hval].
Qed.


(** *** Capacity and length *)

Lemma grow_to_holds h v l (n : N) :
  holds h v l → (n < 2 ^ 64)%N →
  ∃ h' v', grow_to h v n = Ok (h', v') ∧ holds h' v' l ∧
    m_reservedSize v' = N.max (m_reservedSize v) n ∧ m_size v' = m_size v ∧
    ((n ≤ m_reservedSize v)%N → h' = h ∧ v' = v) ∧
    ((m_reservedSize v < n)%N →
       elements h' (mkVector (m_reservedSize v') n (m_data v'))
         = (Val <$> l) ++ replicate (N.to_nat n - length l) Indet).
Proof.
  intros Hh Hn. unfold grow_to.
  destruct (N.ltb_spec (m_reservedSize v) n) as [Hgrow|Hroom].
  - pose proof Hh as Hh0.
    apply holds_inv in Hh0 as (b & buf & Hd & Hb & Hl & Hsz & Ht & Hs & Hc).
    assert (Hlt : (b < length h)%nat) by (by eapply lookup_lt_Some).
    destruct (reallocate_holds h v l n Hh) as (h1 & b' & Hrun & Hh1 & _); [lia|done|].
    rewrite Hrun. eexists _, _. split; [done|]. split; [done|].
    cbn [m_reservedSize m_size m_data]. split; [lia|]. split; [done|].
    split; [lia|]. intros _.
    rewrite Hd, (reallocate_live h b buf) in Hrun by (done || lia).
    injection Hrun as <-.
    erewrite elements_buffer; [|done|].
    2:{ rewrite list_lookup_insert_ne by lia. by apply list_lookup_middle. }
    cbn [m_size]. rewrite Hsz, Nat2N.id, Ht.
    rewrite take_ge by list_length. done.
  - eexists _, _. split; [done|]. split; [done|]. split; [lia|]. split; [done|].
    split; [done|lia].
Qed.

(** X14.  [resize(n, a)], where the reference [a] is bound to an object
    holding [x] (a temporary, or an element of any live array, also of the
    container itself).  When the capacity is below [n] and [a] is an element
    of the container itself, [reallocate()] releases the array before [a] is
    read: the call reads the freed array.  In every other case the first
    [min(n, length)] elements are kept and copies of [x] are appended up to
    length [n]; the capacity becomes [max(capacity, n)]. *)
Theorem resize_fill_holds h v l (n : N) (a : argument T) x :
  holds h v l → (n < 2 ^ 64)%N → read_argument h a = Ok (Val x) →
  if (capacity v <? n)%N && refers_to v a
  then resize_fill h v n a = UB UseAfterFree
  else ∃ h' v', resize_fill h v n a = Ok (h', v') ∧
         holds h' v' (take (N.to_nat n) l ++ replicate (N.to_nat n - length l) x) ∧
         capacity v' = N.max (capacity v) n.
Proof.
  unfold capacity. intros Hh Hn Hread.
  pose proof (holds_size _ _ _ Hh) as Hsz.
  assert (Hloop : ∀ h1 v1, holds h1 v1 l → m_size v1 = m_size v →
            (n ≤ m_reservedSize v1)%N → (m_size v < n)%N →
            read_argument h1 a = Ok (Val x) →
            ∃ h', fill_argument h1 (m_data v1) (m_size v1) (N.to_nat (n - m_size v1)) a
                    = Ok h' ∧
              holds h' (mkVector (m_reservedSize v1) n (m_data v1))
                (take (N.to_nat n) l ++ replicate (N.to_nat n - length l) x)).
  { intros h1 v1 Hh1 Hsz1 Hfit Hlt Hread1.
    apply holds_inv in Hh1 as (b & buf & Hd & Hb & Hl & _ & Ht & Hs & Hc).
    rewrite Hd, Hsz1, Hsz.
    rewrite (fill_argument_live a x b 0 (N.to_nat (n - N.of_nat (length l))) (length l)
               h1 buf Hb) by (done || simpl; lia).
    eexists. split; [done|].
    change (N.to_nat 0) with 0%nat. cbn [Nat.add].
    holds_of_insert.
    + list_length.
    + list_length.
    + rewrite (take_ge l) by lia. rewrite fmap_app, fmap_replicate, <- Ht.
      rewrite app_assoc. replace (N.to_nat (n - N.of_nat (length l)))
        with (N.to_nat n - length l)%nat by lia.
      apply take_app_length'. list_length.
    + lia.
    + lia. }
  unfold resize_fill.
  destruct (N.ltb_spec (m_reservedSize v) n) as [Hgrow|Hroom]; cbn [andb].
  - assert (Hlt : (m_size v < n)%N).
    { pose proof (holds_capacity _ _ _ Hh). lia. }
    destruct (N.ltb_spec (m_size v) n) as [_|]; [|lia].
    unfold grow_to. destruct (N.ltb_spec (m_reservedSize v) n) as [_|]; [|lia].
    destruct (reallocate_holds h v l n Hh)
      as (h1 & b & -> & Hh1 & Hd & Hfreed & _ & Hother); [lia | done |].
    cbn [mbind result_bind m_data m_size m_reservedSize].
    destruct (refers_to v a) eqn:Hrefers.
    + destruct (N.to_nat (n - m_size v)) as [|k] eqn:Hk; [lia|].
      rewrite (fill_argument_unreadable _ _ _ _ _ UseAfterFree); [done|].
      by apply (read_argument_freed _ v _ b).
    + destruct (Hloop h1 (mkVector n (m_size v) (At (length h) 0)) Hh1)
        as (h' & Hrun & Hh'); [done | simpl; lia | done | |].
      { eapply read_argument_frame; [done | by apply (refers_to_other v) | done]. }
      cbn [m_data m_size m_reservedSize] in Hrun, Hh'. rewrite Hrun.
      cbn [mbind result_bind m_data m_size m_reservedSize].
      eexists _, _. split; [done|]. split; [done|]. by rewrite N.max_r by lia.
  - destruct (N.ltb_spec (m_size v) n) as [Hlt|Hshrink].
    + unfold grow_to. destruct (N.ltb_spec (m_reservedSize v) n) as [|_]; [lia|].
      cbn [mbind result_bind].
      destruct (Hloop h v Hh) as (h' & Hrun & Hh'); [done | done | done | done |].
      rewrite Hrun. cbn [mbind result_bind].
      eexists _, _. split; [done|]. split; [done|]. by rewrite N.max_l by lia.
    + cbn [mbind result_bind]. eexists _, _. split; [done|].
      apply holds_inv in Hh as (b & buf & Hd & Hb & Hl & _ & Ht & Hs & Hc).
      split; [|simpl; rewrite N.max_l by lia; done].
      replace (N.to_nat n - length l)%nat with 0%nat by lia. simpl. rewrite app_nil_r.
      eapply (holds_intro _ _ _ b buf); cbn [m_data m_size m_reservedSize]; try done.
      * list_length.
      * rewrite length_take, fmap_take, <- Ht, take_take.
        f_equal; lia.
Qed.

(** X15.  [resize(k)] to a smaller length keeps the first [k] elements and the
    free store, and resizing back to the old length brings back the old
    elements: shrinking erases nothing. *)
Theorem resize_down_up h v l (k : N) :
  holds h v l → (k ≤ size v)%N →
  ∃ v1 v2, resize h v k = Ok (h, v1) ∧ holds h v1 (take (N.to_nat k) l) ∧
    resize h v1 (size v) = Ok (h, v2) ∧ holds h v2 l ∧ v2 = v.
Proof.
  unfold size. intros Hh Hk. pose proof (holds_size _ _ _ Hh) as Hsz.
  pose proof Hh as Hh0.
  apply holds_inv in Hh0 as (b & buf & Hd & Hb & Hl & _ & Ht & Hs & Hc).
  unfold resize at 1. destruct (N.ltb_spec (m_size v) k) as [|_]; [lia|].
  cbn [mbind result_bind]. eexists _, _. split; [done|].
  unfold resize, grow_to. cbn [m_size m_reservedSize m_data].
  assert (Hv : mkVector (m_reservedSize v) (m_size v) (m_data v) = v) by (by destruct v).
  split; [|destruct (N.ltb_spec k (m_size v)) as [_|_];
            [destruct (N.ltb_spec (m_reservedSize v) (m_size v)) as [|_]; [lia|]|];
            cbn [mbind result_bind m_size m_reservedSize m_data]; rewrite Hv; done].
  eapply (holds_intro _ _ _ b buf); cbn [m_data m_size m_reservedSize]; try done.
  - list_length.
  - rewrite length_take, fmap_take, <- Ht, take_take. f_equal; lia.
  - lia.
Qed.

(** X16.  [resize(n)] beyond the capacity reallocates to capacity exactly [n]
    and sets the length to [n]; the new elements are not initialised. *)
Theorem resize_grow_uninitialized h v l (n : N) :
  holds h v l → (capacity v < n)%N → (n < 2 ^ 64)%N →
  ∃ h' v', resize h v n = Ok (h', v') ∧ size v' = n ∧ capacity v' = n ∧
    well_formed h' v' ∧
    elements h' v' = (Val <$> l) ++ replicate (N.to_nat n - length l) Indet.
Proof.
  unfold capacity, size. intros Hh Hgrow Hn. unfold resize.
  pose proof Hh as Hh0.
  apply holds_inv in Hh0 as (b & buf & Hd & Hb & Hl & _ & Ht & Hs & Hc).
  destruct (N.ltb_spec (m_size v) n) as [_|]; [|lia].
  destruct (grow_to_holds h v l n Hh Hn) as (h1 & v1 & -> & Hh1 & Hcap & Hsz1 & _ & Hel).
  cbn [mbind result_bind]. eexists _, _. split; [done|].
  cbn [m_size m_reservedSize]. split; [done|]. split; [lia|]. split; [|by apply Hel].
  apply holds_inv in Hh1 as (b1 & buf1 & Hd1 & Hb1 & Hl1 & _ & _ & _ & _).
  eapply (well_formed_intro _ _ b1 buf1); cbn [m_data m_size m_reservedSize]; try done; lia.
Qed.

(** X17.  [reserve(n)] keeps the elements; the capacity becomes
    [max(capacity, n)], and nothing changes when [n <= capacity]. *)
Theorem reserve_holds h v l (n : N) :
  holds h v l → (n < 2 ^ 64)%N →
  ∃ h' v', reserve h v n = Ok (h', v') ∧ holds h' v' l ∧
    capacity v' = N.max (capacity v) n ∧ ((n ≤ capacity v)%N → h' = h ∧ v' = v).
Proof.
  unfold capacity. intros Hh Hn.
  destruct (grow_to_holds h v l n Hh Hn) as (h1 & v1 & Hrun & Hh1 & Hcap & _ & Hsame & _).
  exists h1, v1. done.
Qed.

(** X18.  [shrink_to_fit()] keeps the elements, moves them to a new array and
    leaves capacity equal to length. *)
Theorem shrink_to_fit_holds h v l :
  holds h v l →
  ∃ h' v', shrink_to_fit h v = Ok (h', v') ∧ holds h' v' l ∧ capacity v' = size v' ∧
    m_data v' ≠ m_data v.
Proof.
  intros Hh. unfold shrink_to_fit.
  pose proof Hh as Hh0.
  apply holds_inv in Hh0 as (b & buf & Hd & Hb & Hl & _ & _ & Hs & Hc).
  assert (Hlt : (b < length h)%nat) by (by eapply lookup_lt_Some).
  destruct (reallocate_holds h v l (m_size v) Hh) as (h1 & b' & -> & Hh1 & _); [lia|lia|].
  eexists _, _. split; [done|]. split; [done|]. split; [done|].
  rewrite Hd. simpl. intros [= Heq]. lia.
Qed.

(** X19.  [pop_back()] touches neither the free store nor the capacity; on a
    non-empty container it drops the last element, on an empty one the
    length wraps to [2^64 - 1]. *)
Theorem pop_back_holds h v l :
  holds h v l →
  ∃ v', pop_back h v = Ok (h, v') ∧ capacity v' = capacity v ∧
    (l ≠ [] → holds h v' (take (length l - 1) l)) ∧
    (l = [] → size v' = (2 ^ 64 - 1)%N).
Proof.
  intros Hh. unfold pop_back. eexists. split; [done|]. split; [done|].
  apply holds_inv in Hh as (b & buf & Hd & Hb & Hl & Hsz & Ht & Hs & Hc).
  split.
  - intros Hne. assert (length l ≠ 0%nat) by (by destruct l).
    rewrite size_sub_le by lia.
    eapply (holds_intro _ _ _ b buf); cbn [m_data m_size m_reservedSize]; try done.
    + list_length.
    + rewrite length_take, fmap_take, <- Ht, take_take. f_equal; lia.
    + lia.
  - intros ->. simpl in Hsz. rewrite Hsz. done.
Qed.

(** X20.  [front()] and [back()] return the first and the last element of a
    non-empty container; [back()] on an empty container reads index
    [2^64 - 1], outside the array. *)
Theorem front_back h v l :
  holds h v l →
  (∀ x, head l = Some x → front h v = Ok (Val x)) ∧
  (∀ x, last l = Some x → back h v = Ok (Val x)) ∧
  (l = [] → back h v = UB OutOfBounds).
Proof.
  intros Hh. split; [|split].
  - intros x Hx. apply (holds_subscript h v l 0 x Hh). by destruct l.
  - intros x Hx. unfold back. rewrite (holds_size _ _ _ Hh).
    assert (length l ≠ 0%nat) by (by destruct l).
    apply holds_inv in Hh as (b & buf & Hd & Hb & Hl & Hsz & Ht & Hs & Hc).
    rewrite size_sub_le by lia.
    replace (N.of_nat (length l) - 1)%N with (N.of_nat (length l - 1)) by lia.
    rewrite Hd. eapply load_live; [done|]. rewrite Nat2N.id.
    rewrite <- (lookup_take_lt buf (length l)) by lia.
    rewrite Ht, list_lookup_fmap. rewrite last_lookup in Hx.
    replace (length l - 1)%nat with (pred (length l)) by lia. by rewrite Hx.
  - intros ->. unfold back. rewrite (holds_size _ _ _ Hh). simpl.
    apply holds_inv in Hh as (b & buf & Hd & Hb & Hl & Hsz & Ht & Hs & Hc).
    rewrite Hd. unfold load. rewrite Hb.
    change (size_sub (N.of_nat 0) 1%N) with (2 ^ 64 - 1)%N.
    rewrite (lookup_ge_None_2 buf) by lia. done.
Qed.

(** X21.  [operator[]] checks against nothing but the array: any index below
    the capacity is read (also at or beyond the length), an index at or
    beyond the capacity is a read outside the array, while [at] throws for
    every index at or beyond the length. *)
Theorem subscript_unchecked h v (i : N) :
  well_formed h v →
  ((i < capacity v)%N → ∃ s, subscript h v i = Ok s) ∧
  ((capacity v ≤ i)%N → subscript h v i = UB OutOfBounds) ∧
  ((size v ≤ i)%N → at_ h v i = Throw out_of_range).
Proof.
  unfold capacity, size. intros Hwf.
  apply well_formed_inv in Hwf as (b & buf & Hd & Hb & Hl & Hs & Hc).
  unfold subscript, at_. rewrite Hd. split; [|split].
  - intros Hi. destruct (lookup_lt_is_Some_2 buf (N.to_nat i)) as [s Hsl]; [lia|].
    exists s. by apply (load_live h b buf i s).
  - intros Hi. unfold load. rewrite Hb, N.add_0_l.
    rewrite (lookup_ge_None_2 buf) by lia. done.
  - intros Hi. destruct (N.ltb_spec i (m_size v)); [lia | done].
Qed.


(** *** Insertion and erasure *)

(** X22.  [erase(first, last)] with [first <= last <= length] returns the
    iterator at [first], keeps the capacity, and changes nothing when
    [first = last].  For an arithmetic [T] it removes the elements at
    positions [first .. last-1].  For any other [T] the destructor loop has
    moved [xi_first] up to [xi_last] when the length is reduced by
    [xi_last - xi_first]: the elements behind [last] are moved down, but the
    length stays what it was, so that the last [last - first] elements
    appear twice. *)
Theorem erase_range_holds h v l (first last : N) :
  holds h v l → (first ≤ last)%N → (N.to_nat last ≤ length l)%nat →
  ∃ h' v', erase_range h v first last = Ok (h', v', ptr_add (m_data v) first) ∧
    capacity v' = capacity v ∧ (first = last → h' = h ∧ v' = v) ∧
    holds h' v' (if @is_arithmetic T _
                 then take (N.to_nat first) l ++ drop (N.to_nat last) l
                 else take (N.to_nat first) l ++ drop (N.to_nat last) l
                      ++ drop (length l - (N.to_nat last - N.to_nat first)) l) ∧
    size v' = (if @is_arithmetic T _ then size v - (last - first) else size v)%N.
Proof.
  unfold capacity, size. intros Hh Hfl Hlast. unfold erase_range, destroy_range.
  pose proof (holds_size _ _ _ Hh) as Hsz0.
  destruct (N.eqb_spec first last) as [->|Hne].
  - eexists _, _. split; [done|]. split; [done|]. split; [done|].
    rewrite N.sub_diag, N.sub_0_r, Nat.sub_diag, Nat.sub_0_r.
    rewrite (drop_ge l (length l)) by done. rewrite app_nil_r, take_drop.
    by destruct (@is_arithmetic T _).
  - apply holds_inv in Hh as (b & buf & Hd & Hb & Hl & Hsz & Ht & Hs & Hc).
    destruct (take_drop_values l buf (N.to_nat first) Ht) as [Htp Htd]; [lia|].
    rewrite Hd. cbn [ptr_add].
    destruct (@is_arithmetic T _); cbn [mbind result_bind].
    + rewrite (size_sub_le last first) by lia.
      rewrite !size_sub_le by lia.
      rewrite (memmove_live h b buf) by (done || lia). cbn [mbind result_bind].
      eexists _, _. split; [done|]. split; [done|]. split; [done|]. split; [|done].
      replace (N.to_nat (0 + first)) with (N.to_nat first) by lia.
      replace (N.to_nat (0 + last)) with (N.to_nat last) by lia.
      holds_of_insert.
      * list_length.
      * list_length.
      * rewrite fmap_app, <- Htp, <- (Htd (N.to_nat last)).
        replace (N.to_nat (m_size v - last)) with (length l - N.to_nat last)%nat by lia.
        rewrite app_assoc. apply take_app_length'. list_length.
      * lia.
      * lia.
    + destruct (N.leb_spec first last) as [_|]; [|lia]. cbn [mbind result_bind].
      rewrite (size_sub_le last last) by lia. rewrite N.sub_diag.
      rewrite !size_sub_le by lia. rewrite N.sub_0_r.
      rewrite (memmove_live h b buf) by (done || lia). cbn [mbind result_bind].
      eexists _, _. split; [done|]. split; [done|]. split; [done|]. split; [|done].
      replace (N.to_nat (0 + first)) with (N.to_nat first) by lia.
      replace (N.to_nat (0 + last)) with (N.to_nat last) by lia.
      replace (N.to_nat (m_size v - last)) with (length l - N.to_nat last)%nat by lia.
      set (f := N.to_nat first) in *. set (k := N.to_nat last) in *.
      holds_of_insert.
      * list_length.
      * list_length.
      * rewrite !fmap_app, <- Htp, <- (Htd k), <- (Htd (length l - (k - f))%nat).
        replace (length (take f l ++ drop k l ++ drop (length l - (k - f)) l))
          with (f + ((length l - k) + (k - f)))%nat by list_length.
        rewrite take_app_add' by list_length.
        rewrite take_app_add' by list_length.
        do 2 f_equal. f_equal; [lia | f_equal; lia].
      * done.
      * done.
Qed.

Lemma grow_for_room h v (cnt : N) :
  (m_size v + cnt ≤ m_reservedSize v)%N → (m_reservedSize v < 2 ^ 64)%N →
  grow_for h v cnt = Ok (h, v).
Proof.
  intros Hroom Hc. unfold grow_for. rewrite wrap_small by lia.
  destruct (N.ltb_spec (m_reservedSize v) (m_size v + cnt)); [lia | done].
Qed.

Lemma shifted_values (l : list T) buf (p c : nat) (mid : list (slot T)) :
  take (length l) buf = Val <$> l → (p ≤ length l)%nat → length mid = c →
  (length l + c ≤ length buf)%nat →
  let buf1 := take (p + c) buf ++ take (length l - p) (drop p buf)
              ++ drop (p + c + (length l - p)) buf in
  take (length l + c) (take p buf1 ++ mid ++ drop (p + c) buf1)
    = (Val <$> take p l) ++ mid ++ (Val <$> drop p l).
Proof.
  intros Ht Hp Hmid Hfit buf1.
  destruct (take_drop_values l buf p Ht Hp) as [Htp Htd].
  assert (H1 : take p buf1 = take p buf).
  { unfold buf1. rewrite take_app_le by list_length. rewrite take_take. f_equal. lia. }
  assert (H2 : drop (p + c) buf1
               = take (length l - p) (drop p buf) ++ drop (p + c + (length l - p)) buf).
  { unfold buf1. apply drop_app_length'. list_length. }
  rewrite H1, H2, <- Htp, <- (Htd p). rewrite !app_assoc.
  apply take_app_length'. list_length.
Qed.

Lemma insert_fill_moved h v l (pos cnt : N) (a : argument T) x :
  holds h v l → (m_size v + cnt ≤ m_reservedSize v)%N → (N.to_nat pos ≤ length l)%nat →
  (∀ h2, memmove h (ptr_add (ptr_add (m_data v) pos) cnt) (ptr_add (m_data v) pos)
           (size_sub (m_size v) pos) = Ok h2 →
         read_argument h2 a = Ok (Val x)) →
  ∃ h' v', insert_fill h v pos cnt a = Ok (h', v', ptr_add (m_data v) pos) ∧
    holds h' v' (take (N.to_nat pos) l ++ replicate (N.to_nat cnt) x
                 ++ drop (N.to_nat pos) l) ∧
    m_reservedSize v' = m_reservedSize v.
Proof.
  intros Hh Hroom Hpos Hread. unfold insert_fill.
  destruct (N.eqb_spec cnt 0) as [->|Hne].
  - eexists _, _. split; [done|]. simpl. rewrite take_drop. done.
  - apply holds_inv in Hh as (b & buf & Hd & Hb & Hl & Hsz & Ht & Hs & Hc).
    rewrite (grow_for_room h v cnt) by done. cbn [mbind result_bind].
    rewrite Hd in *. cbn [ptr_add] in *. rewrite size_sub_le in * by lia.
    rewrite (memmove_live h b buf) in Hread by (done || lia).
    rewrite (memmove_live h b buf) by (done || lia). cbn [mbind result_bind].
    pose proof (fill_argument_live a x b (0 + pos) (N.to_nat cnt) 0) as Hrun.
    change (N.of_nat 0) with 0%N in Hrun.
    erewrite Hrun; [| apply list_lookup_insert_eq; by eapply lookup_lt_Some | list_length
                    | by apply Hread].
    cbn [mbind result_bind]. rewrite list_insert_insert_eq.
    eexists _, _. split; [done|]. split; [|done].
    rewrite !Nat.add_0_r.
    replace (N.to_nat (0 + pos + cnt)) with (N.to_nat pos + N.to_nat cnt)%nat by lia.
    replace (N.to_nat (0 + pos)) with (N.to_nat pos) by lia.
    replace (N.to_nat (m_size v - pos)) with (length l - N.to_nat pos)%nat by lia.
    holds_of_insert.
    + list_length.
    + rewrite wrap_small by lia. list_length.
    + rewrite !fmap_app, fmap_replicate.
      replace (length (take (N.to_nat pos) l ++ replicate (N.to_nat cnt) x
                       ++ drop (N.to_nat pos) l))
        with (length l + N.to_nat cnt)%nat by list_length.
      apply shifted_values; try done; [by rewrite length_replicate | lia].
    + rewrite wrap_small by lia. lia.
    + lia.
Qed.

(** X23.  [insert(pos, count, a)] when [length + count <= capacity] and
    [pos <= length].  The reference [a] is read after the elements from
    [pos] on have been moved up by [count].  When [a] is bound to an object
    that holds [x] and is not an element of the container, [count] copies of
    [x] are put before position [pos], the other elements keep their order,
    and the iterator at [pos] is returned.  When [a] is the element at index
    [j] of the container itself, the same holds for the value found at index
    [j] after the move: the old element [j] for [j < pos + count], the old
    element [j - count] otherwise. *)
Theorem insert_fill_holds h v l (pos cnt : N) :
  holds h v l → (size v + cnt ≤ capacity v)%N → (N.to_nat pos ≤ length l)%nat →
  (∀ (a : argument T) x, refers_to v a = false → read_argument h a = Ok (Val x) →
     ∃ h' v', insert_fill h v pos cnt a = Ok (h', v', ptr_add (m_data v) pos) ∧
       holds h' v' (take (N.to_nat pos) l ++ replicate (N.to_nat cnt) x
                    ++ drop (N.to_nat pos) l) ∧
       capacity v' = capacity v) ∧
  (∀ (j : nat) x,
     l !! (if (j <? N.to_nat pos + N.to_nat cnt)%nat then j else (j - N.to_nat cnt)%nat)
       = Some x →
     ∃ h' v', insert_fill h v pos cnt (Elem (ptr_add (m_data v) (N.of_nat j)))
                = Ok (h', v', ptr_add (m_data v) pos) ∧
       holds h' v' (take (N.to_nat pos) l ++ replicate (N.to_nat cnt) x
                    ++ drop (N.to_nat pos) l) ∧
       capacity v' = capacity v).
Proof.
  unfold size, capacity. intros Hh Hroom Hpos.
  pose proof Hh as Hh0.
  apply holds_inv in Hh0 as (b & buf & Hd & Hb & Hl & Hsz & Ht & Hs & Hc).
  split.
  - intros a x Hout Hread. apply insert_fill_moved; try done.
    intros h2 Hmv. rewrite Hd in Hmv. cbn [ptr_add] in Hmv.
    rewrite size_sub_le in Hmv by lia.
    rewrite (memmove_live h b buf) in Hmv by (done || lia). injection Hmv as <-.
    eapply read_argument_frame; [done | by apply (refers_to_other v) |].
    intros b' Hne _. by rewrite list_lookup_insert_ne.
  - intros j x Hj. apply insert_fill_moved; try done.
    intros h2 Hmv. rewrite Hd in Hmv |- *. cbn [ptr_add] in Hmv |- *.
    rewrite size_sub_le in Hmv by lia.
    rewrite (memmove_live h b buf) in Hmv by (done || lia). injection Hmv as <-.
    cbn [read_argument]. unfold load.
    rewrite list_lookup_insert_eq by (by eapply lookup_lt_Some).
    replace (N.to_nat (0 + N.of_nat j + 0)) with j by lia.
    replace (N.to_nat (0 + pos + cnt)) with (N.to_nat pos + N.to_nat cnt)%nat by lia.
    replace (N.to_nat (0 + pos)) with (N.to_nat pos) by lia.
    replace (N.to_nat (m_size v - pos)) with (length l - N.to_nat pos)%nat by lia.
    set (p := N.to_nat pos) in *. set (c := N.to_nat cnt) in *.
    assert (Hval : ∀ i y, l !! i = Some y → buf !! i = Some (Val y)).
    { intros i y Hi. rewrite <- (lookup_take_lt buf (length l)) by (by eapply lookup_lt_Some).
      by rewrite Ht, list_lookup_fmap, Hi. }
    destruct (Nat.ltb_spec j (p + c)) as [Hlt|Hge].
    + rewrite lookup_app_l by list_length.
      rewrite lookup_take_lt by done. by rewrite (Hval j x).
    + pose proof (lookup_lt_Some _ _ _ Hj) as Hjc.
      rewrite lookup_app_r by list_length.
      rewrite lookup_app_l by list_length.
      rewrite lookup_take_lt by list_length.
      rewrite lookup_drop.
      replace (p + (j - length (take (p + c) buf)))%nat with (j - c)%nat by list_length.
      by rewrite (Hval _ x).
Qed.

(** X24.  When [length + n <= capacity], [insert(pos, list)] puts the [n]
    items of the list before position [pos], keeps the other elements in
    order, and returns the iterator at [pos]. *)
Theorem insert_list_holds h v l (pos : N) (items : list T) :
  holds h v l → (size v + N.of_nat (length items) ≤ capacity v)%N →
  (N.to_nat pos ≤ length l)%nat →
  ∃ h' v', insert_list h v pos items = Ok (h', v', ptr_add (m_data v) pos) ∧
    holds h' v' (take (N.to_nat pos) l ++ items ++ drop (N.to_nat pos) l) ∧
    capacity v' = capacity v.
Proof.
  unfold size, capacity. intros Hh Hroom Hpos. unfold insert_list.
  pose proof Hh as Hh0.
  apply holds_inv in Hh0 as (b & buf & Hd & Hb & Hl & Hsz & Ht & Hs & Hc).
  rewrite (wrap_small (N.of_nat (length items))) by lia.
  destruct (N.eqb_spec (N.of_nat (length items)) 0) as [Hz|Hne].
  - assert (items = []) as -> by (destruct items; [done | simpl in Hz; lia]).
    eexists _, _. split; [done|]. simpl. rewrite take_drop. done.
  - rewrite (grow_for_room h v _) by done. cbn [mbind result_bind].
    rewrite Hd. cbn [ptr_add]. rewrite size_sub_le by lia.
    rewrite (memmove_live h b buf) by (done || lia). cbn [mbind result_bind].
    pose proof (store_from_live b (0 + pos) items 0) as Hrun.
    change (N.of_nat 0) with 0%N in Hrun.
    erewrite Hrun; [| apply list_lookup_insert_eq; by eapply lookup_lt_Some | list_length].
    cbn [mbind result_bind]. rewrite list_insert_insert_eq.
    eexists _, _. split; [done|]. split; [|done].
    rewrite !Nat.add_0_r.
    replace (N.to_nat (0 + pos + N.of_nat (length items)))
      with (N.to_nat pos + length items)%nat by lia.
    replace (N.to_nat (0 + pos)) with (N.to_nat pos) by lia.
    replace (N.to_nat (m_size v - pos)) with (length l - N.to_nat pos)%nat by lia.
    holds_of_insert.
    + list_length.
    + rewrite wrap_small by lia. list_length.
    + rewrite !fmap_app.
      replace (length (take (N.to_nat pos) l ++ items ++ drop (N.to_nat pos) l))
        with (length l + length items)%nat by list_length.
      apply shifted_values; try done; [by rewrite length_fmap | lia].
    + rewrite wrap_small by lia. lia.
    + lia.
Qed.

(** X25.  When [length + count > capacity], [insert(pos, count, x)] and
    [insert(pos, list)] reallocate and then move the elements through the
    iterator taken before the reallocation, which points into the freed
    array, whatever [x] is bound to. *)
Theorem bulk_insert_when_growing h v (pos cnt : N) (a : argument T) (items : list T) :
  well_formed h v → (capacity v < size v + cnt)%N → (size v + cnt < 2 ^ 62)%N →
  N.of_nat (length items) = cnt →
  insert_fill h v pos cnt a = UB UseAfterFree ∧
  insert_list h v pos items = UB UseAfterFree.
Proof.
  unfold size, capacity. intros Hwf Hgrow Hsmall Hitems.
  apply well_formed_inv in Hwf as (b & buf & Hd & Hb & Hl & Hs & Hc).
  assert (Hlt : (b < length h)%nat) by (by eapply lookup_lt_Some).
  assert (Hcnt : cnt ≠ 0%N) by lia.
  assert (Hg : ∃ h1 v1, grow_for h v cnt = Ok (h1, v1) ∧ h1 !! b = Some Freed).
  { unfold grow_for. rewrite (wrap_small (m_size v + cnt)) by lia.
    destruct (N.ltb_spec (m_reservedSize v) (m_size v + cnt)) as [_|]; [|lia].
    rewrite wrap_small by lia.
    rewrite Hd, (reallocate_live h b buf) by (done || lia).
    eexists _, _. split; [done|].
    apply list_lookup_insert_eq. rewrite length_app. lia. }
  destruct Hg as (h1 & v1 & Hrun & Hfreed).
  split.
  - unfold insert_fill. destruct (N.eqb_spec cnt 0) as [|_]; [done|].
    rewrite Hrun. cbn [mbind result_bind]. rewrite Hd. cbn [ptr_add].
    unfold memmove, read_range. by rewrite Hfreed.
  - unfold insert_list. rewrite Hitems, (wrap_small cnt) by lia.
    destruct (N.eqb_spec cnt 0) as [|_]; [done|].
    rewrite Hrun. cbn [mbind result_bind]. rewrite Hd. cbn [ptr_add].
    unfold memmove, read_range. by rewrite Hfreed.
Qed.

(** *** Growth by doubling *)

Lemma push_back_growth h v l x :
  holds h v l → (0 < m_reservedSize v)%N → (N.of_nat (length l) < 2 ^ 63)%N →
  ∃ h' v', push_back h v (Temp x) = Ok (h', v') ∧
    (if (m_size v =? m_reservedSize v)%N
     then m_reservedSize v' = (2 * m_reservedSize v)%N ∧ length h' = S (length h)
     else m_reservedSize v' = m_reservedSize v ∧ length h' = length h).
Proof.
  intros Hh Hpos Hlen.
  apply holds_inv in Hh as (b & buf & Hd & Hb & Hl & Hn & Ht & Hs & Hc).
  unfold push_back, grow_if_full.
  destruct (N.eqb_spec (m_size v) (m_reservedSize v)) as [Heq|Hne].
  - rewrite (wrap_small (m_reservedSize v * 2)) by lia.
    rewrite Hd, (reallocate_live h b buf) by (done || lia).
    cbn [mbind result_bind m_data m_size m_reservedSize read_argument].
    assert (Hlt : (b < length h)%nat) by (by eapply lookup_lt_Some).
    erewrite store_live;
      [| rewrite list_lookup_insert_ne by lia; by apply list_lookup_middle | list_length].
    cbn [mbind result_bind]. eexists _, _. split; [done|].
    cbn [m_reservedSize]. split; [lia|]. list_length.
  - cbn [mbind result_bind read_argument]. rewrite Hd.
    rewrite (store_live h b buf) by (done || lia). cbn [mbind result_bind].
    eexists _, _. split; [done|]. cbn [m_reservedSize]. split; [done|]. list_length.
Qed.

Lemma push_all_growth values : ∀ h v l (k : nat),
  holds h v l → m_reservedSize v = (4 * 2 ^ N.of_nat k)%N →
  (k = 0%nat ∨ (m_reservedSize v < 2 * N.of_nat (length l))%N) →
  (N.of_nat (length l + length values) ≤ 2 ^ 63)%N →
  ∃ h' v' (k' : nat), push_all h v values = Ok (h', v') ∧ holds h' v' (l ++ values) ∧
    m_reservedSize v' = (4 * 2 ^ N.of_nat k')%N ∧
    (k' = 0%nat ∨ (m_reservedSize v' < 2 * N.of_nat (length l + length values))%N) ∧
    (length h' + k = length h + k')%nat.
Proof.
  induction values as [|x rest IH]; intros h v l k Hh Hcap Hmin Hlen; simpl.
  - exists h, v, k. rewrite app_nil_r, Nat.add_0_r. done.
  - simpl in Hlen.
    assert (Hpos : (0 < m_reservedSize v)%N).
    { rewrite Hcap. pose proof (N.pow_nonzero 2 (N.of_nat k)). lia. }
    destruct (push_back_holds h v l (Temp x) x Hh Hpos) as (h1 & v1 & Hpush & Hh1 & _);
      [lia | done | done |].
    destruct (push_back_growth h v l x Hh Hpos) as (h1' & v1' & Hpush' & Hgrow); [lia|].
    rewrite Hpush in Hpush'. injection Hpush' as <- <-.
    rewrite Hpush. cbn [mbind result_bind].
    pose proof (holds_size _ _ _ Hh) as Hsz.
    destruct (N.eqb_spec (m_size v) (m_reservedSize v)) as [Heq|Hne];
      destruct Hgrow as [Hc1 Hl1].
    + destruct (IH h1 v1 (l ++ [x]) (S k) Hh1) as (h' & v' & k' & Hrun & Hh' & Hc' & Hm' & Hl').
      { rewrite Hc1, Hcap, Nat2N.inj_succ, N.pow_succ_r'. lia. }
      { right. rewrite length_app. simpl. lia. }
      { rewrite length_app. simpl. lia. }
      exists h', v', k'. split; [done|]. rewrite <- app_assoc in Hh'. split; [done|].
      split; [done|]. rewrite length_app in Hm'. simpl in Hm'.
      split; [|lia]. destruct Hm' as [->|Hm']; [by left | right; lia].
    + destruct (IH h1 v1 (l ++ [x]) k Hh1) as (h' & v' & k' & Hrun & Hh' & Hc' & Hm' & Hl').
      { congruence. }
      { destruct Hmin as [->|Hmin]; [by left | right].
        rewrite Hc1, length_app. simpl. lia. }
      { rewrite length_app. simpl. lia. }
      exists h', v', k'. split; [done|]. rewrite <- app_assoc in Hh'. split; [done|].
      split; [done|]. rewrite length_app in Hm'. simpl in Hm'.
      split; [|lia]. destruct Hm' as [->|Hm']; [by left | right; lia].
Qed.

(** X26.  After [n] calls of [push_back] on a default-constructed container
    the capacity is [4 * 2^k], where [k] is the number of arrays allocated
    since construction; it is at least [n], and it is 4 or below [2n]. *)
Theorem push_back_doubling h (values : list T) :
  (N.of_nat (length values) ≤ 2 ^ 63)%N →
  ∃ h0 v0 h' v' (k : nat), Vector_default h = Ok (h0, v0) ∧
    push_all h0 v0 values = Ok (h', v') ∧
    capacity v' = (4 * 2 ^ N.of_nat k)%N ∧
    (N.of_nat (length values) ≤ capacity v')%N ∧
    (k = 0%nat ∨ (capacity v' < 2 * N.of_nat (length values))%N) ∧
    length h' = (length h0 + k)%nat.
Proof.
  intros Hlen.
  destruct (Vector_default_holds h) as (h0 & v0 & Hctor & Hh0 & Hcap).
  destruct (push_all_growth values h0 v0 [] 0 Hh0) as (h' & v' & k & Hrun & Hh' & Hc' & Hm' & Hl');
    [done | by left | done |].
  exists h0, v0, h', v', k. split; [done|]. split; [done|]. split; [done|].
  simpl in *. split; [exact (holds_capacity _ _ _ Hh') |]. split; [done | lia].
Qed.

(** *** Element-wise assignment, as values *)

Lemma overload_tag_operator o t : overload o = Resolved t → tag_operator t = o.
Proof. intros Ho. destruct o; vm_compute in Ho; try done; by injection Ho as <-. Qed.

(** X27.  For an operator with one member template, [c = a op b] makes
    [c.length()] element evaluations and leaves [c] holding
    [a[i] op b[i]] for [i < c.length()]: [c] keeps its length and no other
    array changes.  [a] and [b] must be at least as long as [c]; either may
    be [c] itself. *)
Theorem assign_binary_values h a b c la lb lc o t :
  overload o = Resolved t → holds h a la → holds h b lb → holds h c lc →
  (length lc ≤ length la)%nat → (length lc ≤ length lb)%nat →
  ∃ h', assign_expression h c (Node (Leaf a) t (Leaf b)) = Ok (h', c, length lc) ∧
    holds h' c (take (length lc) (zip_with (binop o) la lb)) ∧
    (∀ b', m_data c ≠ At b' 0 → h' !! b' = h !! b').
Proof.
  intros Ho Ha Hb Hc Hla Hlb. apply overload_tag_operator in Ho.
  set (e := Node (Leaf a) t (Leaf b)).
  destruct (assign_elements_written h c e) as (bc & buf & h' & Hdc & Hbc & Hrun & Hw).
  { by eapply holds_well_formed. }
  { pose proof (holds_size _ _ _ Hc).
    intros v Hv. apply elem_of_cons in Hv as [->|Hv];
      [|apply list_elem_of_singleton in Hv as ->].
    - split; [by eapply holds_well_formed|].
      pose proof (holds_capacity _ _ _ Ha). lia.
    - split; [by eapply holds_well_formed|].
      pose proof (holds_capacity _ _ _ Hb). lia. }
  pose proof Hc as Hc'.
  apply holds_inv in Hc' as (bc' & buf' & Hd' & Hb' & Hl' & Hn' & _ & Hs' & Hcap').
  assert (bc' = bc) as -> by congruence. assert (buf' = buf) as -> by congruence.
  assert (Hlz : length (take (length lc) (zip_with (binop o) la lb)) = length lc).
  { rewrite length_take, length_zip_with. lia. }
  exists h'. split; [|split].
  - unfold assign_expression. rewrite Hrun. cbn [mbind result_bind].
    do 2 f_equal. simpl. lia.
  - eapply (written_holds h c bc buf); try done.
    + by rewrite Hlz.
    + rewrite Hlz. rewrite Hn', Nat2N.id in Hw. exact Hw.
    + intros j x Hj. apply lookup_take_Some in Hj as [Hj Hlt].
      rewrite lookup_zip_with in Hj.
      destruct (la !! j) as [xa|] eqn:Hxa; [|done].
      destruct (lb !! j) as [xb|] eqn:Hxb; [|done].
      simpl in Hj. injection Hj as <-.
      unfold e. rewrite (index_containers h a b la lb t j xa xb) by done.
      simpl. by rewrite Ho.
  - intros b' Hne. destruct Hw as (_ & Hother & _). apply Hother. congruence.
Qed.

(** X28.  [c op= a] leaves [c] holding [c[i] op a[i]] for [i < c.length()]
    and changes no other array; [a] must be at least as long as [c], and may
    be [c] itself. *)
Theorem compound_assign_values o h c a lc la :
  holds h c lc → holds h a la → (length lc ≤ length la)%nat →
  ∃ h', compound_assign o h c (Leaf a) = Ok (h', c, 0%nat) ∧
    holds h' c (zip_with (compound o) lc la) ∧
    (∀ b', m_data c ≠ At b' 0 → h' !! b' = h !! b').
Proof.
  intros Hc Ha Hla.
  destruct (compound_assign_written o h c (Leaf a)) as (bc & buf & h' & Hdc & Hbc & Hrun & Hw).
  { by eapply holds_well_formed. }
  { pose proof (holds_size _ _ _ Hc).
    intros v Hv. apply list_elem_of_singleton in Hv as ->.
    split; [by eapply holds_well_formed|].
    pose proof (holds_capacity _ _ _ Ha). lia. }
  pose proof Hc as Hc'.
  apply holds_inv in Hc' as (bc' & buf' & Hd' & Hb' & Hl' & Hn' & _ & Hs' & Hcap').
  assert (bc' = bc) as -> by congruence. assert (buf' = buf) as -> by congruence.
  assert (Hlz : length (zip_with (compound o) lc la) = length lc).
  { rewrite length_zip_with. lia. }
  exists h'. split; [|split].
  - rewrite Hrun. do 2 f_equal. simpl. lia.
  - eapply (written_holds h c bc buf); try done.
    + by rewrite Hlz.
    + rewrite Hlz. rewrite Hn', Nat2N.id in Hw. exact Hw.
    + intros j x Hj. rewrite lookup_zip_with in Hj.
      destruct (lc !! j) as [xc|] eqn:Hxc; [|done].
      destruct (la !! j) as [xa|] eqn:Hxa; [|done].
      simpl in Hj. injection Hj as <-.
      unfold compound_element. cbn [index].
      pose proof (holds_subscript h a la j xa Ha Hxa) as Hra.
      pose proof (holds_subscript h c lc j xc Hc Hxc) as Hrc.
      unfold subscript in Hra, Hrc. rewrite Hra. cbn [mbind result_bind].
      rewrite Hrc. done.
  - intros b' Hne. destruct Hw as (_ & Hother & _). apply Hother. congruence.
Qed.

(** *** A container constructed from an expression *)

(** X29.  The container constructed from a binary expression has an array
    pointer that was never initialised: reading an element, [push_back] and
    the destructor all go through that pointer, and assigning an expression
    to it writes nothing, its length being 0. *)
Theorem Vector_expression_unusable h l t r :
  ∃ v, Vector_expression h l t r = Ok (h, v, 0%nat) ∧
    (∀ i, subscript h v i = UB InvalidPointer) ∧
    (∀ x, push_back h v (Temp x) = UB InvalidPointer) ∧
    (∀ a, ∃ f, push_back h v a = UB f) ∧
    (∀ e, assign_expression h v e = Ok (h, v, 0%nat)) ∧
    Vector_destroy h v = UB InvalidPointer.
Proof.
  eexists. split; [reflexivity|]. split; [done|]. split; [done|].
  split; [|done]. intros a. unfold push_back, grow_if_full.
  cbn [m_size m_reservedSize m_data N.eqb Pos.eqb mbind result_bind].
  destruct (read_argument_result h a) as [[s ->]|[f ->]]; by eexists.
Qed.

(** *** clear *)

(** X30.  [clear()] leaves an empty container with the same array and the
    same capacity; the free store is unchanged. *)
Theorem clear_keeps_array h v l :
  holds h v l →
  ∃ v', clear h v = Ok (h, v') ∧ holds h v' [] ∧ capacity v' = capacity v ∧
    m_data v' = m_data v.
Proof.
  intros Hh. apply holds_inv in Hh as (b & buf & Hd & Hb & Hl & Hn & Ht & Hs & Hc).
  eexists. split; [done|]. split; [|done].
  eapply (holds_intro _ _ _ b buf); cbn [m_data m_size m_reservedSize]; try done. lia.
Qed.

End MoreFacts.

(** ** The theorems on the remaining members at concrete inputs *)

(** [short_store] and [boxed_store] are what the constructors and
    [push_back] leave. *)
Example short_store_built :
  ('(h, s) ← Vector_size [] 1%N; '(h, l) ← Vector_default h;
   '(h, l) ← push_all h l [1; 2; 3]%Z; Ok (h, s, l)) = Ok (short_store, vec_short, vec_long).
Proof. reflexivity. Qed.

Example boxed_store_built :
  ('(h, v) ← Vector_default []; push_all h v [Box 1; Box 2; Box 3; Box 4])
    = Ok (boxed_store, vec_full).
Proof. reflexivity. Qed.

(** [erase(begin() + 1, begin() + 3)] on a full container of boxed values:
    the length stays 4. *)
Example erase_range_boxed :
  ∃ h v p, erase_range boxed_store vec_full 1%N 3%N = Ok (h, v, p) ∧ size v = 4%N ∧
    elements h v = [Val (Box 1); Val (Box 4); Val (Box 3); Val (Box 4)].
Proof. by eexists _, _, _. Qed.

Lemma Vector_fill_holds_witness :
  ∃ h' v, Vector_fill ab_store 3%N 7%Z = Ok (h', v) ∧
    holds h' v (replicate (N.to_nat 3) 7%Z) ∧
    size v = 3%N ∧ capacity v = (2 * 3)%N ∧
    (∀ b, (b < length ab_store)%nat → h' !! b = ab_store !! b).
Proof. apply (Vector_fill_holds ab_store 3%N 7%Z). reflexivity. Defined.

Lemma Vector_range_holds_witness :
  ∃ h' v, Vector_range ab_store (At 1 1%N) (At 1 (1 + 2)%N) = Ok (h', v) ∧
    holds h' v [20; 30]%Z ∧ capacity v = (2 * 2)%N ∧
    h' !! 1%nat = Some (Live [Val 10; Val 20; Val 30; Indet]%Z).
Proof.
  apply (Vector_range_holds ab_store 1%nat [Val 10; Val 20; Val 30; Indet]%Z 1%N 2%N
           [20; 30]%Z); try reflexivity.
  simpl. lia.
Defined.

Lemma Vector_copy_independent_witness :
  ∃ h' v h'', Vector_copy ab_store vec_a = Ok (h', v) ∧
    holds h' v [1; 2; 3]%Z ∧ holds h' vec_a [1; 2; 3]%Z ∧
    capacity v = capacity vec_a ∧ m_data v ≠ m_data vec_a ∧
    Vector_destroy h' vec_a = Ok h'' ∧ holds h'' v [1; 2; 3]%Z.
Proof.
  apply (Vector_copy_independent ab_store vec_a [1; 2; 3]%Z).
  unfold holds, well_formed; simpl; repeat split; lia.
Defined.

Lemma Vector_move_leaves_array_witness :
  ∃ h' y x' b buf, Vector_move ab_store vec_a = Ok (h', y, x') ∧
    holds h' y [1; 2; 3]%Z ∧ capacity y = capacity vec_a ∧
    size x' = 0%N ∧ m_data x' = Null ∧
    m_data vec_a = At b 0 ∧ m_data y ≠ m_data vec_a ∧ h' !! b = Some (Live buf) ∧
    Vector_destroy h' x' = Ok h'.
Proof.
  apply (Vector_move_leaves_array ab_store vec_a [1; 2; 3]%Z).
  unfold holds, well_formed; simpl; repeat split; lia.
Defined.

Lemma assign_copy_overread_witness :
  assign_copy short_store vec_short vec_long = UB OutOfBounds ∧
  assign_move short_store vec_short vec_long = UB OutOfBounds.
Proof.
  apply (assign_copy_overread short_store vec_short vec_long).
  - unfold well_formed; simpl; repeat split; lia.
  - reflexivity.
Defined.

Lemma assign_fill_holds_witness :
  (∃ h' v', assign_fill ab_store vec_a 5%N (Temp 7%Z) = Ok (h', v') ∧
     holds h' v' (replicate (N.to_nat 5) 7%Z) ∧
     capacity v' = (if (capacity vec_a <? 5)%N then 2 * 5 else capacity vec_a)%N) ∧
  assign_fill ab_store vec_a 5%N (Elem (At 0 0%N)) = UB UseAfterFree ∧
  (∃ h' v', assign_fill ab_store vec_a 2%N (Elem (At 0 2%N)) = Ok (h', v') ∧
     holds h' v' (replicate (N.to_nat 2) 3%Z) ∧
     capacity v' = (if (capacity vec_a <? 2)%N then 2 * 2 else capacity vec_a)%N).
Proof.
  assert (Ha : holds ab_store vec_a [1; 2; 3]%Z).
  { unfold holds, well_formed; simpl; repeat split; lia. }
  split; [|split].
  - exact (assign_fill_holds ab_store vec_a [1; 2; 3]%Z 5%N (Temp 7%Z) 7%Z Ha eq_refl eq_refl).
  - exact (assign_fill_holds ab_store vec_a [1; 2; 3]%Z 5%N (Elem (At 0 0%N)) 1%Z
             Ha eq_refl eq_refl).
  - exact (assign_fill_holds ab_store vec_a [1; 2; 3]%Z 2%N (Elem (At 0 2%N)) 3%Z
             Ha eq_refl eq_refl).
Defined.

Lemma assign_range_holds_witness :
  ∃ h' v', assign_range ab_store vec_a (At 1 0%N) (At 1 (0 + 2)%N) = Ok (h', v') ∧
    holds h' v' [10; 20]%Z ∧
    capacity v' = (if (capacity vec_a <? 2)%N then 4 * 2 else capacity vec_a)%N.
Proof.
  apply (assign_range_holds ab_store vec_a [1; 2; 3]%Z 1%nat
           [Val 10; Val 20; Val 30; Indet]%Z 0%N 2%N [10; 20]%Z); try reflexivity.
  - unfold holds, well_formed; simpl; repeat split; lia.
  - simpl. congruence.
  - simpl. lia.
Defined.

Lemma assign_items_keeps_length_witness :
  ∃ h' v', assign_items ab_store vec_a [7; 8]%Z = Ok (h', v') ∧
    size v' = size vec_a ∧ well_formed h' v' ∧
    (∀ i x, [7; 8]%Z !! i = Some x → subscript h' v' (N.of_nat i) = Ok (Val x)).
Proof.
  apply (assign_items_keeps_length ab_store vec_a [1; 2; 3]%Z [7; 8]%Z).
  - unfold holds, well_formed; simpl; repeat split; lia.
  - reflexivity.
Defined.

Lemma resize_fill_holds_witness :
  (∃ h' v', resize_fill ab_store vec_a 6%N (Temp 7%Z) = Ok (h', v') ∧
     holds h' v' (take (N.to_nat 6) [1; 2; 3]%Z
                  ++ replicate (N.to_nat 6 - length [1; 2; 3]%Z) 7%Z) ∧
     capacity v' = N.max (capacity vec_a) 6) ∧
  resize_fill ab_store vec_a 6%N (Elem (At 0 0%N)) = UB UseAfterFree ∧
  (∃ h' v', resize_fill ab_store vec_a 4%N (Elem (At 0 0%N)) = Ok (h', v') ∧
     holds h' v' (take (N.to_nat 4) [1; 2; 3]%Z
                  ++ replicate (N.to_nat 4 - length [1; 2; 3]%Z) 1%Z) ∧
     capacity v' = N.max (capacity vec_a) 4).
Proof.
  assert (Ha : holds ab_store vec_a [1; 2; 3]%Z).
  { unfold holds, well_formed; simpl; repeat split; lia. }
  split; [|split].
  - exact (resize_fill_holds ab_store vec_a [1; 2; 3]%Z 6%N (Temp 7%Z) 7%Z Ha eq_refl eq_refl).
  - exact (resize_fill_holds ab_store vec_a [1; 2; 3]%Z 6%N (Elem (At 0 0%N)) 1%Z
             Ha eq_refl eq_refl).
  - exact (resize_fill_holds ab_store vec_a [1; 2; 3]%Z 4%N (Elem (At 0 0%N)) 1%Z
             Ha eq_refl eq_refl).
Defined.

Lemma resize_down_up_witness :
  ∃ v1 v2, resize ab_store vec_a 1%N = Ok (ab_store, v1) ∧
    holds ab_store v1 (take (N.to_nat 1) [1; 2; 3]%Z) ∧
    resize ab_store v1 (size vec_a) = Ok (ab_store, v2) ∧
    holds ab_store v2 [1; 2; 3]%Z ∧ v2 = vec_a.
Proof.
  apply (resize_down_up ab_store vec_a [1; 2; 3]%Z 1%N).
  - unfold holds, well_formed; simpl; repeat split; lia.
  - simpl. lia.
Defined.

Lemma resize_grow_uninitialized_witness :
  ∃ h' v', resize ab_store vec_a 6%N = Ok (h', v') ∧ size v' = 6%N ∧ capacity v' = 6%N ∧
    well_formed h' v' ∧
    elements h' v' = (Val <$> [1; 2; 3]%Z)
                     ++ replicate (N.to_nat 6 - length [1; 2; 3]%Z) Indet.
Proof.
  apply (resize_grow_uninitialized ab_store vec_a [1; 2; 3]%Z 6%N).
  - unfold holds, well_formed; simpl; repeat split; lia.
  - reflexivity.
  - reflexivity.
Defined.

Lemma reserve_holds_witness :
  ∃ h' v', reserve ab_store vec_a 10%N = Ok (h', v') ∧ holds h' v' [1; 2; 3]%Z ∧
    capacity v' = N.max (capacity vec_a) 10 ∧
    ((10 ≤ capacity vec_a)%N → h' = ab_store ∧ v' = vec_a).
Proof.
  apply (reserve_holds ab_store vec_a [1; 2; 3]%Z 10%N).
  - unfold holds, well_formed; simpl; repeat split; lia.
  - reflexivity.
Defined.

Lemma shrink_to_fit_holds_witness :
  ∃ h' v', shrink_to_fit ab_store vec_a = Ok (h', v') ∧ holds h' v' [1; 2; 3]%Z ∧
    capacity v' = size v' ∧ m_data v' ≠ m_data vec_a.
Proof.
  apply (shrink_to_fit_holds ab_store vec_a [1; 2; 3]%Z).
  unfold holds, well_formed; simpl; repeat split; lia.
Defined.

Lemma pop_back_holds_witness :
  ∃ v', pop_back ab_store vec_a = Ok (ab_store, v') ∧ capacity v' = capacity vec_a ∧
    ([1; 2; 3]%Z ≠ [] → holds ab_store v' (take (length [1; 2; 3]%Z - 1) [1; 2; 3]%Z)) ∧
    ([1; 2; 3]%Z = [] → size v' = (2 ^ 64 - 1)%N).
Proof.
  apply (pop_back_holds ab_store vec_a [1; 2; 3]%Z).
  unfold holds, well_formed; simpl; repeat split; lia.
Defined.

Lemma front_back_witness :
  (∀ x, head [1; 2; 3]%Z = Some x → front ab_store vec_a = Ok (Val x)) ∧
  (∀ x, last [1; 2; 3]%Z = Some x → back ab_store vec_a = Ok (Val x)) ∧
  ([1; 2; 3]%Z = [] → back ab_store vec_a = UB OutOfBounds).
Proof.
  apply (front_back ab_store vec_a [1; 2; 3]%Z).
  unfold holds, well_formed; simpl; repeat split; lia.
Defined.

Lemma subscript_unchecked_witness :
  ((3 < capacity vec_a)%N → ∃ s, subscript ab_store vec_a 3%N = Ok s) ∧
  ((capacity vec_a ≤ 3)%N → subscript ab_store vec_a 3%N = UB OutOfBounds) ∧
  ((size vec_a ≤ 3)%N → at_ ab_store vec_a 3%N = Throw out_of_range).
Proof.
  apply (subscript_unchecked ab_store vec_a 3%N).
  unfold well_formed; simpl; repeat split; lia.
Defined.

Lemma erase_range_holds_witness :
  (∃ h' v', erase_range full_store vec_full 1%N 3%N
              = Ok (h', v', ptr_add (m_data vec_full) 1%N) ∧
     capacity v' = capacity vec_full ∧ (1%N = 3%N → h' = full_store ∧ v' = vec_full) ∧
     holds h' v' [1; 4]%Z ∧ size v' = 2%N) ∧
  (∃ h' v', erase_range boxed_store vec_full 1%N 3%N
              = Ok (h', v', ptr_add (m_data vec_full) 1%N) ∧
     capacity v' = capacity vec_full ∧ (1%N = 3%N → h' = boxed_store ∧ v' = vec_full) ∧
     holds h' v' [Box 1; Box 4; Box 3; Box 4] ∧ size v' = 4%N).
Proof.
  split.
  - refine (erase_range_holds full_store vec_full [1; 2; 3; 4]%Z 1%N 3%N _ _ _).
    + unfold holds, well_formed; simpl; repeat split; lia.
    + lia.
    + simpl. lia.
  - refine (erase_range_holds boxed_store vec_full [Box 1; Box 2; Box 3; Box 4] 1%N 3%N _ _ _).
    + unfold holds, well_formed; simpl; repeat split; lia.
    + lia.
    + simpl. lia.
Defined.

Lemma insert_fill_holds_witness :
  (∃ h' v', insert_fill ab_store vec_a 0%N 1%N (Temp 7%Z)
              = Ok (h', v', ptr_add (m_data vec_a) 0%N) ∧
     holds h' v' [7; 1; 2; 3]%Z ∧ capacity v' = capacity vec_a) ∧
  (∃ h' v', insert_fill ab_store vec_a 0%N 1%N (Elem (At 0 2%N))
              = Ok (h', v', ptr_add (m_data vec_a) 0%N) ∧
     holds h' v' [2; 1; 2; 3]%Z ∧ capacity v' = capacity vec_a).
Proof.
  assert (Ha : holds ab_store vec_a [1; 2; 3]%Z).
  { unfold holds, well_formed; simpl; repeat split; lia. }
  assert (Hroom : (size vec_a + 1 ≤ capacity vec_a)%N) by (simpl; lia).
  assert (Hpos : (N.to_nat 0 ≤ length [1; 2; 3]%Z)%nat) by (simpl; lia).
  split.
  - exact (proj1 (insert_fill_holds ab_store vec_a [1; 2; 3]%Z 0%N 1%N Ha Hroom Hpos)
             (Temp 7%Z) 7%Z eq_refl eq_refl).
  - exact (proj2 (insert_fill_holds ab_store vec_a [1; 2; 3]%Z 0%N 1%N Ha Hroom Hpos)
             2%nat 2%Z eq_refl).
Defined.

Lemma insert_list_holds_witness :
  ∃ h' v', insert_list abc_store vec_c 1%N [7; 8]%Z
             = Ok (h', v', ptr_add (m_data vec_c) 1%N) ∧
    holds h' v' (take (N.to_nat 1) [0; 0]%Z ++ [7; 8]%Z ++ drop (N.to_nat 1) [0; 0]%Z) ∧
    capacity v' = capacity vec_c.
Proof.
  apply (insert_list_holds abc_store vec_c [0; 0]%Z 1%N [7; 8]%Z).
  - unfold holds, well_formed; simpl; repeat split; lia.
  - simpl. lia.
  - simpl. lia.
Defined.

Lemma bulk_insert_when_growing_witness :
  insert_fill full_store vec_full 1%N 2%N (Temp 9%Z) = UB UseAfterFree ∧
  insert_list full_store vec_full 1%N [8; 9]%Z = UB UseAfterFree.
Proof.
  apply (bulk_insert_when_growing full_store vec_full 1%N 2%N (Temp 9%Z) [8; 9]%Z).
  - unfold well_formed; simpl; repeat split; lia.
  - reflexivity.
  - reflexivity.
  - reflexivity.
Defined.

Lemma push_back_doubling_witness :
  ∃ h0 v0 h' v' (k : nat), Vector_default [] = Ok (h0, v0) ∧
    push_all h0 v0 [1; 2; 3; 4; 5]%Z = Ok (h', v') ∧
    capacity v' = (4 * 2 ^ N.of_nat k)%N ∧
    (N.of_nat (length [1; 2; 3; 4; 5]%Z) ≤ capacity v')%N ∧
    (k = 0%nat ∨ (capacity v' < 2 * N.of_nat (length [1; 2; 3; 4; 5]%Z))%N) ∧
    length h' = (length h0 + k)%nat.
Proof. apply (push_back_doubling [] [1; 2; 3; 4; 5]%Z). simpl. lia. Defined.

Lemma assign_binary_values_witness :
  ∃ h', assign_expression abc_store vec_c (Node (Leaf vec_a) MUL (Leaf vec_b))
          = Ok (h', vec_c, length [0; 0]%Z) ∧
    holds h' vec_c (take (length [0; 0]%Z)
                      (zip_with (binop o_star) [1; 2; 3]%Z [10; 20; 30]%Z)) ∧
    (∀ b', m_data vec_c ≠ At b' 0 → h' !! b' = abc_store !! b').
Proof.
  apply (assign_binary_values abc_store vec_a vec_b vec_c [1; 2; 3]%Z [10; 20; 30]%Z
           [0; 0]%Z o_star MUL); try reflexivity;
    try (unfold holds, well_formed; simpl; repeat split; lia); simpl; lia.
Defined.

Lemma compound_assign_values_witness :
  ∃ h', compound_assign o_minus_eq abc_store vec_c (Leaf vec_a) = Ok (h', vec_c, 0%nat) ∧
    holds h' vec_c (zip_with (compound o_minus_eq) [0; 0]%Z [1; 2; 3]%Z) ∧
    (∀ b', m_data vec_c ≠ At b' 0 → h' !! b' = abc_store !! b').
Proof.
  apply (compound_assign_values o_minus_eq abc_store vec_c vec_a [0; 0]%Z [1; 2; 3]%Z).
  - unfold holds, well_formed; simpl; repeat split; lia.
  - unfold holds, well_formed; simpl; repeat split; lia.
  - simpl. lia.
Defined.

Lemma clear_keeps_array_witness :
  ∃ v', clear ab_store vec_a = Ok (ab_store, v') ∧ holds ab_store v' [] ∧
    capacity v' = capacity vec_a ∧ m_data v' = m_data vec_a.
Proof.
  apply (clear_keeps_array ab_store vec_a [1; 2; 3]%Z).
  unfold holds, well_formed; simpl; repeat split; lia.
Defined.
